(** * exphub: the Neptune downloader

    A shallow embedding of [exphub/download/neptune_downloader.py] and the
    properties of its three entry points: the constructor of
    [NeptuneDownloader], [download] and [download_series].

    The Python code talks to three things that live outside of it: the
    process environment ([os.environ]), the Neptune client library and
    pandas.  The environment is a finite map from names to values; the
    Neptune service is an oracle (a record of functions) whose calls are
    recorded in a log; of pandas only the handful of operations used by the
    downloader is modelled: the empty frame, column assignment and [join]. *)

From Stdlib Require Import String List Arith Lia Bool QArith.
From stdpp Require Import gmap strings list.

Local Open Scope string_scope.
Local Open Scope list_scope.

(** ** Python values *)

(** [Union[str, List[str]]]: the dynamic type of the selectors and of
    [series_column]. *)
Inductive str_or_list : Type :=
| Str (s : string)
| Strs (l : list string).

(** [Optional[Union[str, List[str]]]]; [None] is Python's [None]. *)
Abbreviation selector := (option str_or_list).

(** The exceptions that can travel through the downloader.
    [NeptuneException cls] stands for any instance of
    [neptune.exceptions.NeptuneException], [cls] being the name of its
    concrete class; [RemoteError cls] is any other exception raised inside
    the remote layer (socket errors, HTTP errors, ...). *)
Inductive exn : Type :=
| ValueError (msg : string)
| AssertionError
| IndexError (msg : string)
| KeyError (key : string)
| NeptuneException (cls : string)
| RemoteError (cls : string).

(** The class the client library raises when a run has no field of the
    requested name. *)
Definition MissingFieldException : exn := NeptuneException "MissingFieldException".

(** [isinstance(e, neptune.exceptions.NeptuneException)] *)
Definition is_NeptuneException (e : exn) : bool :=
  match e with
  | NeptuneException _ => true
  | _ => false
  end.

#[global] Instance str_or_list_eq_dec : EqDecision str_or_list.
Proof. solve_decision. Defined.

#[global] Instance exn_eq_dec : EqDecision exn.
Proof. solve_decision. Defined.

(** ** Insertion-ordered dictionaries

    A Python [dict] and the column axis of a pandas frame both keep their
    keys in insertion order, and assigning to an existing key overwrites the
    value in place. *)
Fixpoint assoc_set {A : Type} (k : string) (v : A) (d : list (string * A)) : list (string * A) :=
  match d with
  | [] => [(k, v)]
  | (k', v') :: d' =>
      if decide (k = k') then (k, v) :: d' else (k', v') :: assoc_set k v d'
  end.

Fixpoint assoc_get {A : Type} (k : string) (d : list (string * A)) : option A :=
  match d with
  | [] => None
  | (k', v') :: d' => if decide (k = k') then Some v' else assoc_get k d'
  end.

(** ** pandas *)
Module pd.
Section Frames.
Context {V : Type}.

(** A frame over a [RangeIndex]: [index] is the number of rows, a cell is
    [None] where pandas holds NaN. *)
Record DataFrame : Type := mkDataFrame {
  index : nat;
  columns : list (string * list (option V))
}.

(** [pd.DataFrame({})] *)
Definition empty : DataFrame := {| index := 0; columns := [] |}.

(** [Series.reindex(RangeIndex(n))]: rows past [n] are dropped, missing rows
    are NaN. *)
Definition reindex (n : nat) (cells : list (option V)) : list (option V) :=
  take n cells ++ replicate (n - length cells) None.

(** [df[key] = value] for a series [value] over [RangeIndex(len(value))].
    A frame that has no rows yet takes the index of the first non-empty
    series assigned to it ([DataFrame._ensure_valid_index]); after that every
    assigned series is aligned on the index of the frame. *)
Definition setitem (df : DataFrame) (key : string) (value : list V) : DataFrame :=
  if (index df =? 0)%nat && (0 <? length value)%nat then
    let n := length value in
    {| index := n;
       columns := assoc_set key (reindex n (Some <$> value))
                    (prod_map id (reindex n) <$> columns df) |}
  else
    {| index := index df;
       columns := assoc_set key (reindex (index df) (Some <$> value)) (columns df) |}.

(** [df.join(other)]: a left join on the index ([how='left'] is the
    default); pandas refuses overlapping column names when no suffix is
    given (its message goes on to list the overlapping names). *)
Definition overlap (df other : DataFrame) : bool :=
  existsb (fun k => bool_decide (k ∈ (columns df).*1)) (columns other).*1.

Definition join (df other : DataFrame) : exn + DataFrame :=
  if overlap df other then
    inl (ValueError "columns overlap but no suffix specified")
  else
    inr {| index := index df;
           columns := columns df ++ (prod_map id (reindex (index df)) <$> columns other) |}.

(** The cell of column [key] at row [i]. *)
Definition cell (df : DataFrame) (key : string) (i : nat) : option (option V) :=
  cells ← assoc_get key (columns df); cells !! i.

End Frames.
Arguments DataFrame : clear implicits.
End pd.

(** ** The Neptune service *)

(** The table of runs as [Table.to_pandas()] gives it: named columns of
    cells. *)
Abbreviation RunsTable := (list (string * list string)).

(** The frame of a series as [fetch_values(include_timestamp=False)] gives
    it: named columns over a [RangeIndex], [step] and [value] when the series
    has values, no column at all when it has none. *)
Abbreviation SeriesFrame V := (list (string * list V)).

(** What the client library answers.  [None] in [init_project] and
    [init_run] means that the handle was opened.  [fetch_runs_table] is the
    frame [Table.to_pandas()] builds from the rows of the answer: it has no
    column when no run matches.  [fetch_values run_id name] is the frame
    returned by [run[name].fetch_values(include_timestamp=False)]. *)
Record Neptune (V : Type) : Type := mkNeptune {
  init_project : string -> string -> option exn;
  fetch_runs_table :
    forall (owner id state tag : selector) (columns : option str_or_list), exn + RunsTable;
  init_run : string -> string -> string -> option exn;
  fetch_values : string -> string -> exn + SeriesFrame V
}.
Arguments init_project {V}.
Arguments fetch_runs_table {V}.
Arguments init_run {V}.
Arguments fetch_values {V}.

(** The calls that reach the remote layer, in the order they were made. *)
Inductive remote_call : Type :=
| InitProject (name mode api_token : string)
| FetchRunsTable (owner id state tag : selector) (columns : option str_or_list)
| InitRun (project with_id mode api_token : string)
| FetchValues (run_id name : string).

(** What is printed on standard output:
    [print('Fetching values for column', col_label)] shows the label as it
    was passed (the [str] of a list when it is one), and
    [print(f'[WARNING] Run {id} does not have a column named {col_label}')]. *)
Inductive output : Type :=
| Fetching (col_label : str_or_list)
| Warning (id col_label : string).

#[global] Instance remote_call_eq_dec : EqDecision remote_call.
Proof. solve_decision. Defined.

#[global] Instance output_eq_dec : EqDecision output.
Proof. solve_decision. Defined.

(** ** The state the code runs in, and its monad *)
Record process : Type := mkProcess {
  environ : gmap string string;
  calls : list remote_call;
  stdout : list output
}.

Definition M (A : Type) : Type := process -> (exn + A) * process.

Definition raise {A} (e : exn) : M A := fun st => (inl e, st).

#[global] Instance M_ret : MRet M := fun A a st => (inr a, st).

#[global] Instance M_bind : MBind M := fun A B k m st =>
  match m st with
  | (inl e, st') => (inl e, st')
  | (inr a, st') => k a st'
  end.

(** [try: body except neptune.exceptions.NeptuneException: handler]: the
    handler runs for the exceptions [handles] accepts, every other exception
    goes on to the caller. *)
Definition try_except {A} (body : M A) (handles : exn -> bool) (handler : M A) : M A :=
  fun st =>
    match body st with
    | (inl e, st') => if handles e then handler st' else (inl e, st')
    | (inr a, st') => (inr a, st')
    end.

Definition print (o : output) : M unit :=
  fun st => (inr tt, {| environ := environ st; calls := calls st; stdout := stdout st ++ [o] |}).

Definition log_call (c : remote_call) : M unit :=
  fun st => (inr tt, {| environ := environ st; calls := calls st ++ [c]; stdout := stdout st |}).

Definition lift {A} (r : exn + A) : M A := fun st => (r, st).

(** [os.environ] *)
Definition environ_contains (name : string) : M bool :=
  fun st => (inr (bool_decide (is_Some (environ st !! name))), st).

Definition environ_get (name : string) : M string :=
  fun st =>
    match environ st !! name with
    | Some v => (inr v, st)
    | None => (inl (KeyError name), st)
    end.

Definition environ_set (name value : string) : M unit :=
  fun st => (inr tt, {| environ := <[name := value]> (environ st);
                        calls := calls st; stdout := stdout st |}).

Fixpoint mapM {A B} (f : A -> M B) (l : list A) : M (list B) :=
  match l with
  | [] => mret []
  | a :: l' => b ← f a; bs ← mapM f l'; mret (b :: bs)
  end.

(** Python's [all] on a list of booleans, and [x is None]. *)
Definition all (l : list bool) : bool := forallb (fun b => b) l.

Definition is_none {A} (o : option A) : bool :=
  match o with
  | None => true
  | Some _ => false
  end.

(** ** The downloader *)

(** The handles the client library hands out. *)
Record Project : Type := mkProject { name : string }.
Record Run : Type := mkRun { with_id : string }.

Record NeptuneDownloader : Type := mkNeptuneDownloader {
  api_token : string;
  project_name : string;
  project : Project
}.

Definition NEPTUNE_API_TOKEN : string := "NEPTUNE_API_TOKEN".

Section Downloader.
Context {V : Type} (neptune : Neptune V).

(** The entry points of the client library: each one is a remote call. *)
Definition neptune_init_project (name mode api_token : string) : M Project :=
  log_call (InitProject name mode api_token);;
  match init_project neptune name api_token with
  | Some e => raise e
  | None => mret {| name := name |}
  end.

Definition project_fetch_runs_table (project : Project)
    (owner id state tag : selector) (columns : option str_or_list) : M RunsTable :=
  log_call (FetchRunsTable owner id state tag columns);;
  lift (fetch_runs_table neptune owner id state tag columns).

Definition neptune_init_run (project with_id mode api_token : string) : M Run :=
  log_call (InitRun project with_id mode api_token);;
  match init_run neptune project with_id api_token with
  | Some e => raise e
  | None => mret {| with_id := with_id |}
  end.

Definition run_fetch_values (run : Run) (name : string) : M (SeriesFrame V) :=
  log_call (FetchValues (with_id run) name);;
  lift (fetch_values neptune (with_id run) name).

(** [NeptuneDownloader.__init__] *)
Definition __init__ (project_name : string) (api_token : option string) : M NeptuneDownloader :=
  token ← match api_token with
           | None =>
               found ← environ_contains NEPTUNE_API_TOKEN;
               if negb found then
                 raise (ValueError ("Environment variable " +:+ NEPTUNE_API_TOKEN +:+ " not found."))
               else environ_get NEPTUNE_API_TOKEN
           | Some api_token =>
               environ_set NEPTUNE_API_TOKEN api_token;; mret api_token
           end;
  project ← neptune_init_project project_name "read-only" token;
  mret {| api_token := token; project_name := project_name; project := project |}.

(** [NeptuneDownloader.download] *)
Definition download (self : NeptuneDownloader)
    (id state owner tag : selector) (columns : option (list string)) : M RunsTable :=
  if all [is_none id; is_none state; is_none owner; is_none tag] then
    raise (ValueError "At least one of id, state, owner, or tag must be provided.")
  else
    project_fetch_runs_table (project self) owner id state tag (Strs <$> columns).

(** The loop of [_fetch_values]:
    [for id, run in zip(ids, runs): try: ... except NeptuneException: ...] *)
Fixpoint fetch_loop (col_label : string) (pairs : list (string * Run))
    (id2value : list (string * SeriesFrame V)) (missing : nat)
  : M (list (string * SeriesFrame V) * nat) :=
  match pairs with
  | [] => mret (id2value, missing)
  | (id, run) :: pairs' =>
      r ← try_except
             (value ← run_fetch_values run col_label; mret (Some value))
             is_NeptuneException
             (print (Warning id col_label);; mret None);
      match r with
      | Some value => fetch_loop col_label pairs' (assoc_set id value id2value) missing
      | None => fetch_loop col_label pairs' id2value (missing + 1)
      end
  end.

(** The loop that fills the table,
    [for id, value in id2value.items(): df[f'{col_label}_{id}'] = value['value']]:
    the subscript [value['value']] raises [KeyError] on a frame that has no
    such column. *)
Fixpoint assemble (col_label : string) (items : list (string * SeriesFrame V))
    (df : pd.DataFrame V) : exn + pd.DataFrame V :=
  match items with
  | [] => inr df
  | (id, value) :: items' =>
      match assoc_get "value" value with
      | Some column => assemble col_label items' (pd.setitem df (col_label +:+ "_" +:+ id) column)
      | None => inl (KeyError "value")
      end
  end.

(** The local function [_fetch_values] of [download_series]; [ids] and
    [runs] are the variables it closes over. *)
Definition _fetch_values (ids : list string) (runs : list Run) (col_label : str_or_list)
  : M (pd.DataFrame V) :=
  print (Fetching col_label);;
  col_label ← match col_label with
               | Strs l =>
                   if (length l =? 1)%nat then
                     match l with
                     | c :: _ => mret c
                     | [] => raise (IndexError "list index out of range")
                     end
                   else raise AssertionError
               | Str s => mret s
               end;
  '(id2value, missing) ← fetch_loop col_label (zip ids runs) [] 0;
  if (missing =? length ids)%nat then
    raise (ValueError ("No runs have a column named " +:+ col_label))
  else
    lift (assemble col_label id2value pd.empty).

(** The loop [for d in dfs[1:]: df = df.join(d)] *)
Fixpoint join_all (df : pd.DataFrame V) (ds : list (pd.DataFrame V)) : M (pd.DataFrame V) :=
  match ds with
  | [] => mret df
  | d :: ds' => df' ← lift (pd.join df d); join_all df' ds'
  end.

(** The end of [download_series] (from [if isinstance(series_column, str) ...]
    on), with the variables [ids] and [runs] it uses.  The result is [Some df]
    where the Python function returns a frame and [None] where it returns
    [None]: the loop of joins is the last statement of the function. *)
Definition fetch_columns (ids : list string) (runs : list Run) (series_column : str_or_list)
  : M (option (pd.DataFrame V)) :=
  match series_column with
  | Str _ => df ← _fetch_values ids runs series_column; mret (Some df)
  | Strs l =>
      if (length l =? 1)%nat then
        df ← _fetch_values ids runs series_column; mret (Some df)
      else
        dfs ← mapM (fun col_label => _fetch_values ids runs (Str col_label)) l;
        match dfs with
        | [] => raise (IndexError "list index out of range")
        | df :: ds => join_all df ds;; mret None
        end
  end.

(** [NeptuneDownloader.download_series] *)
Definition download_series (self : NeptuneDownloader) (series_column : str_or_list)
    (id state owner tag : selector) : M (option (pd.DataFrame V)) :=
  if all [is_none id; is_none state; is_none owner; is_none tag] then
    raise (ValueError "At least one of id, state, owner, or tag must be provided.")
  else
    table ← project_fetch_runs_table (project self) owner id state tag (Some (Str "sys/id"));
    ids ← match assoc_get "sys/id" table with
           | Some column => mret column
           | None => raise (KeyError "sys/id")
           end;
    runs ← mapM (fun run_id =>
                    neptune_init_run (project_name self) run_id "read-only" (api_token self)) ids;
    fetch_columns ids runs series_column.

End Downloader.

(** ** Vocabulary of the properties *)

(** The process after further remote calls and printed lines. *)
Definition extend (st : process) (cs : list remote_call) (os : list output) : process :=
  {| environ := environ st; calls := calls st ++ cs; stdout := stdout st ++ os |}.

Section Vocabulary.
Context {V : Type} (neptune : Neptune V).

(** A run has the series when fetching it succeeds, and lacks it when the
    fetch raises a [NeptuneException] ([MissingFieldException] is the one
    the client raises for an unknown field). *)
Definition has_series (col : string) (run_id : string) : bool :=
  match fetch_values neptune run_id col with
  | inr _ => true
  | inl _ => false
  end.

Definition lacks_series (col : string) (run_id : string) : bool :=
  match fetch_values neptune run_id col with
  | inr _ => false
  | inl e => is_NeptuneException e
  end.

(** The run has the series, but the frame of the series has no column
    ['value']: the series holds no value. *)
Definition hollow (col : string) (run_id : string) : bool :=
  match fetch_values neptune run_id col with
  | inr frame => is_none (assoc_get "value" frame)
  | inl _ => false
  end.

(** The frame of a series on a run (empty when the fetch fails), and its
    values (none when the frame has no column ['value']). *)
Definition series_frame (col : string) (run_id : string) : SeriesFrame V :=
  match fetch_values neptune run_id col with
  | inr frame => frame
  | inl _ => []
  end.

Definition frame_values (frame : SeriesFrame V) : list V :=
  default [] (assoc_get "value" frame).

Definition series_values (col : string) (run_id : string) : list V :=
  frame_values (series_frame col run_id).

(** The label of the column of run [run_id] in the table of series [col]:
    the f-string [f'{col_label}_{id}']. *)
Definition column_label (col run_id : string) : string := col +:+ "_" +:+ run_id.

(** The number of rows of a table of series: the length of the first series
    that has a value. *)
Fixpoint first_nonempty_length (l : list (list V)) : nat :=
  match l with
  | [] => 0
  | v :: l' => if (length v =? 0)%nat then first_nonempty_length l' else length v
  end.

(** The table with one column per entry of [d]. *)
Definition series_table (col : string) (d : list (string * list V)) : pd.DataFrame V :=
  let n := first_nonempty_length d.*2 in
  {| pd.index := n;
     pd.columns := (fun '(r, value) => (column_label col r, pd.reindex n (Some <$> value))) <$> d |}.

(** The runs of [ids] that have the series, and those that lack it. *)
Definition present (col : string) (ids : list string) : list string :=
  filter (fun r => has_series col r = true) ids.

Definition absent (col : string) (ids : list string) : list string :=
  filter (fun r => lacks_series col r = true) ids.

(** No fetch of the series raises anything but a [NeptuneException]. *)
Definition tolerated (col : string) (ids : list string) : Prop :=
  Forall (fun r => has_series col r || lacks_series col r = true) ids.

(** Every frame fetched for the series carries the column ['value']. *)
Definition valued (col : string) (ids : list string) : Prop :=
  Forall (fun r => hollow col r = false) ids.

(** The series can be fetched and put in a table: no fetch raises anything
    but a [NeptuneException], some run has the series, and the frames carry
    their values. *)
Definition found (col : string) (ids : list string) : Prop :=
  tolerated col ids /\ present col ids <> [] /\ valued col ids.

(** The dictionary [id2value] after the loop has visited [ids]. *)
Definition id2value_after (col : string) (ids : list string)
    (d : list (string * SeriesFrame V)) : list (string * SeriesFrame V) :=
  fold_left (fun d r => match fetch_values neptune r col with
                        | inr value => assoc_set r value d
                        | inl _ => d
                        end) ids d.

(** The selectors resolve to the runs [ids]: at least one selector is given,
    the query of the run table answers with the identifiers [ids] in its
    column ['sys/id'], and each of these runs can be opened. *)
Definition resolves (self : NeptuneDownloader) (id state owner tag : selector)
    (ids : list string) : Prop :=
  all [is_none id; is_none state; is_none owner; is_none tag] = false
  /\ (exists table, fetch_runs_table neptune owner id state tag (Some (Str "sys/id")) = inr table
                    /\ assoc_get "sys/id" table = Some ids)
  /\ Forall (fun r => init_run neptune (project_name self) r (api_token self) = None) ids.

(** The process once the runs are resolved and opened. *)
Definition resolved (self : NeptuneDownloader) (id state owner tag : selector)
    (ids : list string) (st : process) : process :=
  extend st
    (FetchRunsTable owner id state tag (Some (Str "sys/id"))
       :: ((fun r => InitRun (project_name self) r "read-only" (api_token self)) <$> ids))
    [].

End Vocabulary.

(** The fetches of a request, series by series and, within a series, run by
    run. *)
Definition fetches (names ids : list string) : list remote_call :=
  concat ((fun c => (fun r => FetchValues r c) <$> ids) <$> names).

(** The series names in the order [download_series] fetches them. *)
Definition requested (series_column : str_or_list) : list string :=
  match series_column with
  | Str s => [s]
  | Strs l => l
  end.

(** The label that the progress line of series [c] shows: the argument itself
    when it is a one-element list, the name otherwise. *)
Definition shown (series_column : str_or_list) (c : string) : str_or_list :=
  match series_column with
  | Strs [_] => series_column
  | _ => Str c
  end.

(** The lines printed for the series [names] that were fetched in full: for
    each one its progress line and a warning per run that lacks it. *)
Definition lines {V : Type} (neptune : Neptune V) (series_column : str_or_list)
    (names ids : list string) : list output :=
  concat ((fun c => Fetching (shown series_column c)
                      :: ((fun r => Warning r c) <$> absent neptune c ids)) <$> names).

(** The progress line of [_fetch_values] with the label as the body of the
    function uses it: a one-element list stands for its element. *)
Definition normalize_label (l : str_or_list) : str_or_list :=
  match l with
  | Strs [c] => Str c
  | _ => l
  end.

Definition normalize_output (o : output) : output :=
  match o with
  | Fetching l => Fetching (normalize_label l)
  | Warning id col => Warning id col
  end.

Definition is_warning (o : output) : bool :=
  match o with
  | Warning _ _ => true
  | Fetching _ => false
  end.

(** ** A small project to run the code on

    The project of the worked example: the tag [expA] selects the runs [R1]
    and [R2], the tag [expC] these and [R3], any other tag no run.  [R1]
    logged the series [loss] (0.9, 0.5, 0.2) and all runs logged [acc]; [R3]
    has a series [loss] with no value in it.  What [R2] answers when asked
    for [loss] is a parameter. *)
Module Lab.

Definition runs_table (owner id state tag : selector) (columns : option str_or_list)
  : exn + RunsTable :=
  if decide (tag = Some (Str "expA")) then inr [("sys/id", ["R1"; "R2"])]
  else if decide (tag = Some (Str "expC")) then inr [("sys/id", ["R1"; "R2"; "R3"])]
  else inr [].

Definition values (loss_of_R2 : exn + SeriesFrame Q) (run_id name : string)
  : exn + SeriesFrame Q :=
  if decide (name = "loss") then
    if decide (run_id = "R1") then
      inr [("step", [0 # 1; 1 # 1; 2 # 1]); ("value", [9 # 10; 5 # 10; 2 # 10])]
    else if decide (run_id = "R3") then inr []
    else loss_of_R2
  else if decide (name = "acc") then
    if decide (run_id = "R1") then inr [("step", [0 # 1; 1 # 1]); ("value", [1 # 2; 3 # 4])]
    else inr [("step", [0 # 1]); ("value", [2 # 3])]
  else inl MissingFieldException.

Definition neptune (loss_of_R2 : exn + SeriesFrame Q) : Neptune Q :=
  {| init_project := fun _ _ => None;
     fetch_runs_table := runs_table;
     init_run := fun _ _ _ => None;
     fetch_values := values loss_of_R2 |}.

(** The service cannot be reached. *)
Definition offline : Neptune Q :=
  {| init_project := fun _ _ => Some (RemoteError "ConnectionError");
     fetch_runs_table := fun _ _ _ _ _ => inl (RemoteError "ConnectionError");
     init_run := fun _ _ _ => Some (RemoteError "ConnectionError");
     fetch_values := fun _ _ => inl (RemoteError "ConnectionError") |}.

(** The run [R2] cannot be opened. *)
Definition locked : Neptune Q :=
  {| init_project := fun _ _ => None;
     fetch_runs_table := runs_table;
     init_run := fun _ with_id _ =>
       if decide (with_id = "R2") then Some (RemoteError "Timeout") else None;
     fetch_values := values (inl MissingFieldException) |}.

Definition self : NeptuneDownloader :=
  {| api_token := "token"; project_name := "lab"; project := {| name := "lab" |} |}.

Definition start : process := {| environ := ∅; calls := []; stdout := [] |}.

(** The run table comes back without its column ['sys/id']. *)
Definition headless : Neptune Q :=
  {| init_project := fun _ _ => None;
     fetch_runs_table := fun _ _ _ _ _ => inr [("sys/name", ["first"; "second"])];
     init_run := fun _ _ _ => None;
     fetch_values := values (inl MissingFieldException) |}.

(** A process whose environment already holds a token. *)
Definition logged_in : process :=
  {| environ := {[ NEPTUNE_API_TOKEN := "secret"; "HOME" := "/home/lab" ]};
     calls := [];
     stdout := [] |}.

End Lab.

(** ** Properties of the constructor *)

Section Constructor.
Context {V : Type} (neptune : Neptune V).

(** C6. Constructing the downloader without a token argument while the
    environment has no [NEPTUNE_API_TOKEN] fails with the [ValueError] of the
    constructor; the state is the initial one, so no remote call was made. *)
Theorem init_without_token_fails (project_name : string) (st : process) :
  environ st !! NEPTUNE_API_TOKEN = None ->
  __init__ neptune project_name None st
  = (inl (ValueError "Environment variable NEPTUNE_API_TOKEN not found."), st).
Proof.
  intros Hnone. unfold __init__, mbind, M_bind, environ_contains.
  rewrite Hnone. rewrite bool_decide_eq_false_2; [reflexivity|].
  intros [v Hv]. discriminate.
Qed.

(** C7. After constructing the downloader with an explicit token, the
    variable [NEPTUNE_API_TOKEN] of the environment holds that token, whether
    or not opening the project succeeds afterwards. *)
Theorem init_with_token_sets_environ (project_name token : string) (st : process) :
  environ (__init__ neptune project_name (Some token) st).2 !! NEPTUNE_API_TOKEN = Some token.
Proof.
  unfold __init__, mbind, M_bind, environ_set, neptune_init_project, log_call, raise, mret, M_ret.
  simpl. destruct (init_project neptune project_name token); simpl; apply lookup_insert_eq.
Qed.

(** C10. Constructing the downloader without a token argument leaves the
    environment as it was, both when the token is read from the environment
    and when the construction fails. *)
Theorem init_without_token_keeps_environ (project_name : string) (st : process) :
  environ (__init__ neptune project_name None st).2 = environ st.
Proof.
  unfold __init__, mbind, M_bind, environ_contains, environ_get, neptune_init_project,
    log_call, raise, mret, M_ret.
  simpl. destruct (environ st !! NEPTUNE_API_TOKEN) as [tok|] eqn:Hlook.
  - rewrite bool_decide_eq_true_2 by eauto. simpl. rewrite Hlook.
    destruct (init_project neptune project_name tok); reflexivity.
  - rewrite bool_decide_eq_false_2; [reflexivity|]. intros [v Hv]. discriminate.
Qed.

End Constructor.

(** ** Steps of the process *)

Arguments extend : simpl never.
Arguments print : simpl never.
Arguments log_call : simpl never.

Lemma extend_nil (st : process) : extend st [] [] = st.
Proof. destruct st. unfold extend. simpl. by rewrite !app_nil_r. Qed.

Lemma extend_extend (st : process) cs cs' os os' :
  extend (extend st cs os) cs' os' = extend st (cs ++ cs') (os ++ os').
Proof. unfold extend. simpl. by rewrite !app_assoc. Qed.

Lemma log_call_extend (c : remote_call) (st : process) :
  log_call c st = (inr tt, extend st [c] []).
Proof. unfold log_call, extend. by rewrite app_nil_r. Qed.

Lemma print_extend (o : output) (st : process) :
  print o st = (inr tt, extend st [] [o]).
Proof. unfold print, extend. by rewrite app_nil_r. Qed.

Lemma bind_inr {A B} (m : M A) (k : A -> M B) (st st' : process) (a : A) :
  m st = (inr a, st') -> (m ≫= k) st = k a st'.
Proof. intros H. unfold mbind, M_bind. by rewrite H. Qed.

Lemma bind_inl {A B} (m : M A) (k : A -> M B) (st st' : process) (e : exn) :
  m st = (inl e, st') -> (m ≫= k) st = (inl e, st').
Proof. intros H. unfold mbind, M_bind. by rewrite H. Qed.

(** ** Properties of the series loop *)

Section Series.
Context {V : Type} (neptune : Neptune V).

Lemma run_fetch_values_extend (run : Run) (col : string) (st : process) :
  run_fetch_values neptune run col st
  = (fetch_values neptune (with_id run) col, extend st [FetchValues (with_id run) col] []).
Proof.
  unfold run_fetch_values. erewrite bind_inr by apply log_call_extend. reflexivity.
Qed.

(** Opening the runs: one remote call per identifier, in order. *)
Lemma init_runs_ok (pname tok : string) (ids : list string) (st : process) :
  Forall (fun r => init_run neptune pname r tok = None) ids ->
  mapM (fun run_id => neptune_init_run neptune pname run_id "read-only" tok) ids st
  = (inr (mkRun <$> ids), extend st ((fun r => InitRun pname r "read-only" tok) <$> ids) []).
Proof.
  intros Hok. revert st. induction Hok as [|r ids Hr _ IH]; intros st; simpl.
  - by rewrite extend_nil.
  - erewrite bind_inr; last first.
    { unfold neptune_init_run. erewrite bind_inr by apply log_call_extend.
      rewrite Hr. reflexivity. }
    erewrite bind_inr by apply IH. unfold mret, M_ret. by rewrite extend_extend.
Qed.

(** The first run that cannot be opened ends the call with its error. *)
Lemma init_runs_raise (pname tok : string) (pre post : list string) (r : string) (e : exn)
    (st : process) :
  Forall (fun r => init_run neptune pname r tok = None) pre ->
  init_run neptune pname r tok = Some e ->
  mapM (fun run_id => neptune_init_run neptune pname run_id "read-only" tok) (pre ++ r :: post) st
  = (inl e, extend st ((fun r => InitRun pname r "read-only" tok) <$> (pre ++ [r])) []).
Proof.
  intros Hok He. revert st. induction Hok as [|r' pre Hr _ IH]; intros st; simpl.
  - erewrite bind_inl; first reflexivity.
    unfold neptune_init_run. erewrite bind_inr by apply log_call_extend.
    by rewrite He.
  - erewrite bind_inr; last first.
    { unfold neptune_init_run. erewrite bind_inr by apply log_call_extend.
      rewrite Hr. reflexivity. }
    erewrite bind_inl by apply IH. by rewrite extend_extend.
Qed.

(** One turn of the loop, by what the fetch answers. *)
Lemma fetch_loop_has (col id : string) (run : Run) (value : SeriesFrame V) pairs d missing st :
  fetch_values neptune (with_id run) col = inr value ->
  fetch_loop neptune col ((id, run) :: pairs) d missing st
  = fetch_loop neptune col pairs (assoc_set id value d) missing
      (extend st [FetchValues (with_id run) col] []).
Proof.
  intros Hf. simpl. unfold mbind, M_bind, try_except, mret, M_ret.
  by rewrite run_fetch_values_extend, Hf.
Qed.

Lemma fetch_loop_lacks (col id : string) (run : Run) (e : exn) pairs d missing st :
  fetch_values neptune (with_id run) col = inl e ->
  is_NeptuneException e = true ->
  fetch_loop neptune col ((id, run) :: pairs) d missing st
  = fetch_loop neptune col pairs d (missing + 1)
      (extend st [FetchValues (with_id run) col] [Warning id col]).
Proof.
  intros Hf He. simpl. unfold mbind, M_bind, try_except, mret, M_ret.
  by rewrite run_fetch_values_extend, Hf, He, print_extend, extend_extend.
Qed.

Lemma fetch_loop_foreign (col id : string) (run : Run) (e : exn) pairs d missing st :
  fetch_values neptune (with_id run) col = inl e ->
  is_NeptuneException e = false ->
  fetch_loop neptune col ((id, run) :: pairs) d missing st
  = (inl e, extend st [FetchValues (with_id run) col] []).
Proof.
  intros Hf He. simpl. unfold mbind, M_bind, try_except, mret, M_ret.
  by rewrite run_fetch_values_extend, Hf, He.
Qed.

Lemma tolerant_cases (col r : string) :
  has_series neptune col r || lacks_series neptune col r = true ->
  (exists value, fetch_values neptune r col = inr value
                 /\ lacks_series neptune col r = false /\ has_series neptune col r = true)
  \/ (exists e, fetch_values neptune r col = inl e /\ is_NeptuneException e = true
                 /\ lacks_series neptune col r = true /\ has_series neptune col r = false).
Proof.
  unfold has_series, lacks_series.
  destruct (fetch_values neptune r col) as [e|value]; simpl; eauto 8.
Qed.

(** The loop over the runs when every fetch either succeeds or raises a
    [NeptuneException]. *)
Lemma fetch_loop_tolerant (col : string) (ids : list string) :
  tolerated neptune col ids ->
  forall (d : list (string * SeriesFrame V)) (missing : nat) (st : process),
  fetch_loop neptune col (zip ids (mkRun <$> ids)) d missing st
  = (inr (id2value_after neptune col ids d,
          missing + length (absent neptune col ids)),
     extend st ((fun r => FetchValues r col) <$> ids)
               ((fun r => Warning r col) <$> absent neptune col ids)).
Proof.
  induction 1 as [|r ids Hr _ IH]; intros d missing st.
  - simpl. rewrite extend_nil, Nat.add_0_r. reflexivity.
  - cbn [zip zip_with fmap list_fmap id2value_after fold_left]. unfold absent.
    destruct (tolerant_cases _ _ Hr) as [(value & Hf & Hl & _)|(e & Hf & He & Hl & _)].
    + rewrite filter_cons_False by (by rewrite Hl).
      erewrite fetch_loop_has by done. rewrite IH, extend_extend, Hf. reflexivity.
    + rewrite filter_cons_True by done.
      erewrite fetch_loop_lacks by done. rewrite IH, extend_extend, Hf.
      cbn [length fmap list_fmap app]. by rewrite <- Nat.add_assoc.
Qed.

(** The first fetch that raises anything but a [NeptuneException] ends the
    loop with that exception. *)
Lemma fetch_loop_raise (col : string) (pre post : list string) (r : string) (e : exn) :
  tolerated neptune col pre ->
  fetch_values neptune r col = inl e ->
  is_NeptuneException e = false ->
  forall (d : list (string * SeriesFrame V)) (missing : nat) (st : process),
  fetch_loop neptune col (zip (pre ++ r :: post) (mkRun <$> (pre ++ r :: post))) d missing st
  = (inl e,
     extend st ((fun r => FetchValues r col) <$> (pre ++ [r]))
               ((fun r => Warning r col) <$> absent neptune col pre)).
Proof.
  intros Hpre Hf0 Hforeign. induction Hpre as [|r' pre Hr _ IH]; intros d missing st.
  - cbn [app zip zip_with fmap list_fmap].
    by erewrite fetch_loop_foreign.
  - cbn [app zip zip_with fmap list_fmap]. unfold absent.
    destruct (tolerant_cases _ _ Hr) as [(value & Hf & Hl & _)|(e' & Hf & He & Hl & _)].
    + rewrite filter_cons_False by (by rewrite Hl).
      erewrite fetch_loop_has by done. by rewrite IH, extend_extend.
    + rewrite filter_cons_True by done.
      erewrite fetch_loop_lacks by done. by rewrite IH, extend_extend.
Qed.

End Series.

(** ** Dictionaries and tables *)

Lemma assoc_set_fresh {A : Type} (k : string) (v : A) (d : list (string * A)) :
  k ∉ d.*1 -> assoc_set k v d = d ++ [(k, v)].
Proof.
  induction d as [|[k' v'] d IH]; intros Hk; simpl; first done.
  apply not_elem_of_cons in Hk as [Hne Hk].
  rewrite decide_False by done. by rewrite IH.
Qed.

Lemma assoc_get_fmap_inj {A B : Type} (f : string -> string) (g : string -> A -> B)
    (k : string) (d : list (string * A)) :
  Inj (=) (=) f ->
  assoc_get (f k) ((fun '(r, v) => (f r, g r v)) <$> d) = (g k) <$> assoc_get k d.
Proof.
  intros Hinj. induction d as [|[k' v'] d IH]; simpl; first done.
  destruct (decide (k = k')) as [->|Hne].
  - by rewrite decide_True.
  - rewrite decide_False; first done. intros Heq. by apply Hne, Hinj.
Qed.

Lemma assoc_get_fresh_values {A : Type} (f : string -> A) (k : string) (l : list string) :
  k ∈ l -> assoc_get k ((fun r => (r, f r)) <$> l) = Some (f k).
Proof.
  induction l as [|k' l IH]; intros Hin; simpl.
  - by apply elem_of_nil in Hin.
  - destruct (decide (k = k')) as [->|Hne]; first done.
    apply elem_of_cons in Hin as [?|Hin]; first done. by apply IH.
Qed.

#[global] Instance column_label_inj (col : string) : Inj (=) (=) (column_label col).
Proof.
  intros a b Heq. unfold column_label in Heq.
  by do 2 apply (inj (String.app _)) in Heq.
Qed.

Section Tables.
Context {V : Type}.
Implicit Types (l : list (list V)) (d : list (string * list V)).

Lemma reindex_length (n : nat) (cells : list (option V)) :
  length (pd.reindex n cells) = n.
Proof.
  unfold pd.reindex. rewrite length_app, length_take, length_replicate. lia.
Qed.

(** Row [i] of a series aligned on an index of [n] rows is its [i]-th value,
    NaN past its end. *)
Lemma reindex_lookup (n i : nat) (value : list V) :
  (i < n)%nat -> pd.reindex n (Some <$> value) !! i = Some (value !! i).
Proof.
  intros Hi. unfold pd.reindex. rewrite length_fmap.
  destruct (decide (i < length value)%nat) as [Hlt|Hge].
  - rewrite lookup_app_l by (rewrite length_take, length_fmap; lia).
    rewrite lookup_take_lt by done. rewrite list_lookup_fmap.
    destruct (lookup_lt_is_Some_2 value i Hlt) as [v ->]. done.
  - rewrite lookup_app_r by (rewrite length_take, length_fmap; lia).
    rewrite length_take, length_fmap.
    rewrite lookup_replicate_2 by lia.
    by rewrite lookup_ge_None_2 by lia.
Qed.

Lemma first_nonempty_length_snoc l (v : list V) :
  first_nonempty_length (l ++ [v])
  = if (first_nonempty_length l =? 0)%nat then length v else first_nonempty_length l.
Proof.
  induction l as [|a l IH]; simpl.
  - destruct (length v) eqn:Hv; simpl; done.
  - destruct (length a =? 0)%nat eqn:Ha; first done.
    by rewrite Ha.
Qed.

Lemma first_nonempty_length_0 l :
  first_nonempty_length l = 0 -> Forall (fun v => v = []) l.
Proof.
  induction l as [|a l IH]; simpl; intros H0; first done.
  destruct (length a =? 0)%nat eqn:Ha.
  - apply Nat.eqb_eq in Ha. constructor; [by apply nil_length_inv | by apply IH].
  - apply Nat.eqb_neq in Ha. lia.
Qed.

(** Assigning the column of a run that has none yet. *)
Lemma setitem_series_table (col r : string) (value : list V) d :
  r ∉ d.*1 ->
  pd.setitem (series_table col d) (column_label col r) value
  = series_table col (d ++ [(r, value)]).
Proof.
  intros Hfresh.
  assert (Hlabel : forall n : nat,
    column_label col r ∉
      ((fun '(r, value) => (column_label col r, pd.reindex n (Some <$> value))) <$> d).*1).
  { intros n Hin. apply Hfresh.
    apply list_elem_of_fmap in Hin as ([k cells] & Hk & Hin).
    apply list_elem_of_fmap in Hin as ([r' v'] & Heq & Hin). simplify_eq/=.
    apply list_elem_of_fmap. by exists (r', v'). }
  unfold pd.setitem, series_table. cbn [pd.index pd.columns].
  rewrite !fmap_snoc, first_nonempty_length_snoc. cbn [snd].
  destruct (first_nonempty_length d.*2 =? 0)%nat eqn:Hn; cbn [andb].
  - apply Nat.eqb_eq in Hn. destruct (0 <? length value)%nat eqn:Hv.
    + f_equal. rewrite <- list_fmap_compose.
      assert (Heq : (prod_map id (pd.reindex (length value))
                ∘ (fun '(r0, value0) =>
                     (column_label col r0,
                      pd.reindex (first_nonempty_length d.*2) (Some <$> value0))))
              <$> d
              = (fun '(r0, value0) =>
                   (column_label col r0, pd.reindex (length value) (Some <$> value0))) <$> d).
      { apply first_nonempty_length_0 in Hn as Hall.
        apply Forall_fmap_ext_1. rewrite Forall_fmap in Hall.
        eapply Forall_impl; first exact Hall.
        intros [r0 v0] Hv0. simpl in Hv0. subst v0. by rewrite Hn. }
      rewrite Heq. by rewrite assoc_set_fresh by apply Hlabel.
    + apply Nat.ltb_ge in Hv. assert (length value = 0) as Hlen by lia.
      rewrite Hn, Hlen. f_equal. by rewrite assoc_set_fresh by apply Hlabel.
  - f_equal. by rewrite assoc_set_fresh by apply Hlabel.
Qed.

(** The loop [for id, value in id2value.items(): df[...] = value['value']]
    builds the table of the dictionary when every frame has its values. *)
Lemma assemble_series_table (col : string) (items : list (string * SeriesFrame V)) :
  forall d0 : list (string * list V),
  NoDup (d0.*1 ++ items.*1) ->
  Forall (fun item => is_Some (assoc_get "value" item.2)) items ->
  assemble col items (series_table col d0)
  = inr (series_table col (d0 ++ (prod_map id frame_values <$> items))).
Proof.
  induction items as [|[r frame] items IH]; intros d0 Hnd Hval; simpl.
  - by rewrite app_nil_r.
  - apply Forall_cons in Hval as [[column Hcolumn] Hval]. simpl in Hcolumn.
    rewrite Hcolumn. change (col +:+ "_" +:+ r) with (column_label col r).
    rewrite setitem_series_table.
    + rewrite IH; [|by rewrite fmap_app, <- app_assoc|done].
      unfold frame_values at 2. rewrite Hcolumn. simpl. by rewrite <- app_assoc.
    + apply NoDup_app in Hnd as (_ & Hdisj & _).
      intros Hin. apply (Hdisj r Hin). simpl. apply elem_of_cons. by left.
Qed.

(** The loop succeeds when every frame has its values ... *)
Lemma assemble_valued (col : string) (items : list (string * SeriesFrame V)) :
  Forall (fun item => is_Some (assoc_get "value" item.2)) items ->
  forall df : pd.DataFrame V, exists df', assemble col items df = inr df'.
Proof.
  induction 1 as [|[r frame] items [column Hcolumn] _ IH]; intros df; simpl.
  - by eexists.
  - simpl in Hcolumn. rewrite Hcolumn. apply IH.
Qed.

(** ... and raises [KeyError('value')] when one of them does not. *)
Lemma assemble_hollow (col : string) (items : list (string * SeriesFrame V)) :
  Exists (fun item => assoc_get "value" item.2 = None) items ->
  forall df : pd.DataFrame V, assemble col items df = inl (KeyError "value").
Proof.
  induction items as [|[r frame] items IH]; intros Hex df; simpl.
  - by apply Exists_nil in Hex.
  - destruct (assoc_get "value" frame) as [column|] eqn:Hcolumn; last done.
    apply IH. apply Exists_cons in Hex as [Hhd|Htl]; last done.
    simpl in Hhd. congruence.
Qed.

End Tables.

Lemma assoc_set_Forall {A : Type} (P : string * A -> Prop) (k : string) (v : A)
    (d : list (string * A)) :
  P (k, v) -> Forall P d -> Forall P (assoc_set k v d).
Proof.
  intros Hkv. induction 1 as [|[k' v'] d Hhd Htl IH]; simpl.
  - by constructor.
  - destruct (decide (k = k')); by constructor.
Qed.

(** ** What [_fetch_values] and [download_series] compute *)

Section Fetching.
Context {V : Type} (neptune : Neptune V).

Lemma id2value_after_NoDup (col : string) (ids : list string) :
  NoDup ids ->
  forall d : list (string * SeriesFrame V),
  (forall r, r ∈ ids -> r ∉ d.*1) ->
  id2value_after neptune col ids d
  = d ++ ((fun r => (r, series_frame neptune col r)) <$> present neptune col ids).
Proof.
  induction 1 as [|r ids Hr Hnd IH]; intros d Hfresh.
  - simpl. by rewrite app_nil_r.
  - cbn [id2value_after fold_left]. unfold present, has_series, series_frame.
    destruct (fetch_values neptune r col) as [e|value] eqn:Hf.
    + rewrite filter_cons_False by (by rewrite Hf).
      apply IH. intros r' Hr'. apply Hfresh. apply elem_of_cons. by right.
    + rewrite filter_cons_True by (by rewrite Hf).
      rewrite assoc_set_fresh by (apply Hfresh, elem_of_cons; by left).
      unfold id2value_after in IH. rewrite IH.
      * cbn [fmap list_fmap]. rewrite Hf. by rewrite <- app_assoc.
      * intros r' Hr'. rewrite fmap_app. intros [Hin|Hin]%elem_of_app.
        -- revert Hin. apply Hfresh. apply elem_of_cons. by right.
        -- apply list_elem_of_singleton in Hin. simpl in Hin. by subst.
Qed.

Lemma id2value_after_valued (col : string) (ids : list string) :
  valued neptune col ids ->
  forall d : list (string * SeriesFrame V),
  Forall (fun item => is_Some (assoc_get "value" item.2)) d ->
  Forall (fun item => is_Some (assoc_get "value" item.2)) (id2value_after neptune col ids d).
Proof.
  unfold valued, hollow.
  induction 1 as [|r ids Hr _ IH]; intros d Hd; first done.
  cbn [id2value_after fold_left].
  destruct (fetch_values neptune r col) as [e|value]; first by apply IH.
  apply IH, assoc_set_Forall; last done.
  simpl. by destruct (assoc_get "value" value).
Qed.

Lemma present_absent_length (col : string) (ids : list string) :
  tolerated neptune col ids ->
  length (present neptune col ids) + length (absent neptune col ids) = length ids.
Proof.
  unfold present, absent.
  induction 1 as [|r ids Hr _ IH]; first done.
  destruct (tolerant_cases _ _ _ Hr) as [(value & Hf & Hl & Hh)|(e & Hf & He & Hl & Hh)].
  - rewrite filter_cons_True by done. rewrite (filter_cons_False _ r) by (by rewrite Hl).
    simpl. lia.
  - rewrite filter_cons_False by (by rewrite Hh). rewrite (filter_cons_True _ r) by done.
    simpl. lia.
Qed.

Lemma all_absent (col : string) (ids : list string) :
  Forall (fun r => lacks_series neptune col r = true) ids ->
  tolerated neptune col ids /\ absent neptune col ids = ids.
Proof.
  unfold tolerated, absent. induction 1 as [|r ids Hr _ [IHt IHa]]; first done.
  split.
  - constructor; last done. rewrite Hr. apply orb_true_r.
  - rewrite filter_cons_True by done. by rewrite IHa.
Qed.

Lemma label_cases (label : str_or_list) (col : string) :
  normalize_label label = Str col -> label = Str col \/ label = Strs [col].
Proof.
  destruct label as [s|[|c [|c' l]]]; simpl; intros Heq; simplify_eq; auto.
Qed.

(** [_fetch_values] is the progress line followed by the same work for a
    string and for the one-element list of that string. *)
Lemma _fetch_values_label (ids : list string) (runs : list Run) (label : str_or_list)
    (col : string) (st : process) :
  normalize_label label = Str col ->
  _fetch_values neptune ids runs label st
  = ('(id2value, missing) ← fetch_loop neptune col (zip ids runs) [] 0;
     if (missing =? length ids)%nat then
       raise (ValueError ("No runs have a column named " +:+ col))
     else
       lift (assemble col id2value pd.empty)) (extend st [] [Fetching label]).
Proof.
  intros [-> | ->]%label_cases; unfold _fetch_values;
    erewrite bind_inr by apply print_extend; reflexivity.
Qed.

(** The series is absent from every run: the no-such-series error. *)
Lemma _fetch_values_all_absent (ids : list string) (label : str_or_list) (col : string)
    (st : process) :
  normalize_label label = Str col ->
  Forall (fun r => lacks_series neptune col r = true) ids ->
  _fetch_values neptune ids (mkRun <$> ids) label st
  = (inl (ValueError ("No runs have a column named " +:+ col)),
     extend st ((fun r => FetchValues r col) <$> ids)
               (Fetching label :: ((fun r => Warning r col) <$> ids))).
Proof.
  intros Hlabel [Htol Habs]%all_absent.
  rewrite (_fetch_values_label _ _ _ _ _ Hlabel).
  erewrite bind_inr by by apply fetch_loop_tolerant.
  rewrite Habs, Nat.add_0_l, Nat.eqb_refl, extend_extend. reflexivity.
Qed.

(** The series is present on some run: every run is fetched, the runs that
    lack the series get their warning, and the table is filled from
    [id2value]. *)
Lemma _fetch_values_some_present (ids : list string) (label : str_or_list) (col : string)
    (st : process) :
  normalize_label label = Str col ->
  tolerated neptune col ids ->
  present neptune col ids <> [] ->
  _fetch_values neptune ids (mkRun <$> ids) label st
  = (assemble col (id2value_after neptune col ids []) pd.empty,
     extend st ((fun r => FetchValues r col) <$> ids)
               (Fetching label :: ((fun r => Warning r col) <$> absent neptune col ids))).
Proof.
  intros Hlabel Htol Hsome.
  rewrite (_fetch_values_label _ _ _ _ _ Hlabel).
  erewrite bind_inr by by apply fetch_loop_tolerant.
  pose proof (present_absent_length _ _ Htol) as Hlen.
  assert (length (present neptune col ids) <> 0) as Hpos.
  { intros H0. by apply nil_length_inv in H0. }
  rewrite Nat.add_0_l.
  destruct (Nat.eqb_spec (length (absent neptune col ids)) (length ids)) as [Heq|Hne];
    first lia.
  unfold lift. rewrite extend_extend. reflexivity.
Qed.

(** A series that is found gives a table. *)
Lemma _fetch_values_found (ids : list string) (label : str_or_list) (col : string)
    (st : process) :
  normalize_label label = Str col ->
  found neptune col ids ->
  exists df,
    _fetch_values neptune ids (mkRun <$> ids) label st
    = (inr df,
       extend st ((fun r => FetchValues r col) <$> ids)
                 (Fetching label :: ((fun r => Warning r col) <$> absent neptune col ids))).
Proof.
  intros Hlabel (Htol & Hsome & Hval).
  destruct (assemble_valued col (id2value_after neptune col ids [])) with (df := @pd.empty V)
    as [df Hdf].
  { by apply id2value_after_valued. }
  exists df. rewrite (_fetch_values_some_present _ _ col) by done. by rewrite Hdf.
Qed.

Lemma present_frames (col : string) (ids : list string) :
  valued neptune col ids ->
  Forall (fun item : string * SeriesFrame V => is_Some (assoc_get "value" item.2))
    ((fun r => (r, series_frame neptune col r)) <$> present neptune col ids).
Proof.
  intros Hval. apply Forall_fmap, Forall_forall. intros r [Hhas Hr]%list_elem_of_filter.
  unfold valued in Hval. rewrite Forall_forall in Hval. specialize (Hval r Hr).
  unfold hollow, has_series, series_frame in *. simpl.
  destruct (fetch_values neptune r col) as [e|frame]; first done.
  by destruct (assoc_get "value" frame).
Qed.

(** With distinct run identifiers the table has one column per run that
    has the series. *)
Lemma _fetch_values_table (ids : list string) (label : str_or_list) (col : string)
    (st : process) :
  normalize_label label = Str col ->
  found neptune col ids ->
  NoDup ids ->
  _fetch_values neptune ids (mkRun <$> ids) label st
  = (inr (series_table col
            ((fun r => (r, series_values neptune col r)) <$> present neptune col ids)),
     extend st ((fun r => FetchValues r col) <$> ids)
               (Fetching label :: ((fun r => Warning r col) <$> absent neptune col ids))).
Proof.
  intros Hlabel (Htol & Hsome & Hval) Hnd.
  rewrite (_fetch_values_some_present _ _ col) by done.
  rewrite id2value_after_NoDup by (done || intros r _; apply not_elem_of_nil).
  rewrite app_nil_l.
  change (@pd.empty V) with (series_table (V:=V) col []).
  rewrite assemble_series_table.
  - rewrite app_nil_l, <- list_fmap_compose. reflexivity.
  - rewrite app_nil_l, <- list_fmap_compose.
    apply NoDup_fmap_2_strong; last by apply NoDup_filter.
    intros r1 r2 _ _ Heq. exact Heq.
  - by apply present_frames.
Qed.

(** With distinct run identifiers, a run that has the series in a frame
    without the column ['value'] makes the filling of the table fail. *)
Lemma _fetch_values_hollow (ids : list string) (label : str_or_list) (col : string)
    (r : string) (st : process) :
  normalize_label label = Str col ->
  tolerated neptune col ids ->
  NoDup ids ->
  r ∈ ids ->
  hollow neptune col r = true ->
  _fetch_values neptune ids (mkRun <$> ids) label st
  = (inl (KeyError "value"),
     extend st ((fun r => FetchValues r col) <$> ids)
               (Fetching label :: ((fun r => Warning r col) <$> absent neptune col ids))).
Proof.
  intros Hlabel Htol Hnd Hr Hhollow.
  assert (r ∈ present neptune col ids) as Hpresent.
  { apply list_elem_of_filter. split; last done.
    unfold hollow, has_series in *. by destruct (fetch_values neptune r col). }
  rewrite (_fetch_values_some_present _ _ col); [|done|done|].
  - rewrite id2value_after_NoDup by (done || intros r' _; apply not_elem_of_nil).
    rewrite app_nil_l, assemble_hollow; first done.
    apply Exists_exists. exists (r, series_frame neptune col r). split.
    + apply list_elem_of_fmap. by exists r.
    + unfold hollow, series_frame in *. simpl.
      destruct (fetch_values neptune r col) as [e|frame]; first done.
      by destruct (assoc_get "value" frame).
  - intros Hnil. rewrite Hnil in Hpresent. by apply elem_of_nil in Hpresent.
Qed.

(** Resolving and opening the runs, then the series. *)
Lemma download_series_resolved (self : NeptuneDownloader) (series_column : str_or_list)
    (id state owner tag : selector) (ids : list string) (st : process) :
  resolves neptune self id state owner tag ids ->
  download_series neptune self series_column id state owner tag st
  = fetch_columns neptune ids (mkRun <$> ids) series_column
      (resolved self id state owner tag ids st).
Proof.
  intros (Hsel & (table & Htable & Hids) & Hopen).
  unfold download_series. rewrite Hsel.
  erewrite bind_inr; last first.
  { unfold project_fetch_runs_table. erewrite bind_inr by apply log_call_extend.
    unfold lift. rewrite Htable. reflexivity. }
  rewrite Hids. erewrite bind_inr by reflexivity.
  erewrite bind_inr by by apply init_runs_ok.
  rewrite extend_extend. reflexivity.
Qed.

Lemma fetch_columns_single (ids : list string) (runs : list Run) (label : str_or_list)
    (col : string) :
  normalize_label label = Str col ->
  fetch_columns neptune ids runs label
  = (df ← _fetch_values neptune ids runs label; mret (Some df)).
Proof. by intros [-> | ->]%label_cases. Qed.

End Fetching.

(** ** Errors on the way *)

Lemma mapM_raise {A B : Type} (f : A -> M B) (pre post : list A) (a : A) (e : exn) :
  Forall (fun x => forall st, exists y st', f x st = (inr y, st')) pre ->
  (forall st, exists st', f a st = (inl e, st')) ->
  forall st, exists st', mapM f (pre ++ a :: post) st = (inl e, st').
Proof.
  intros Hpre Ha. induction Hpre as [|x pre Hx _ IH]; intros st; simpl.
  - destruct (Ha st) as [st' Hst']. exists st'. by erewrite bind_inl.
  - destruct (Hx st) as (y & st1 & Hy). destruct (IH st1) as [st' Hst'].
    exists st'. erewrite bind_inr by done. by erewrite bind_inl.
Qed.

Lemma singleton_split {A : Type} (x a : A) (pre post : list A) :
  [x] = pre ++ a :: post -> pre = [] /\ a = x /\ post = [].
Proof.
  destruct pre as [|y [|z pre]]; simpl; intros Heq; by simplify_eq.
Qed.

Section Errors.
Context {V : Type} (neptune : Neptune V).

(** An error of [_fetch_values] on one of the requested series, the series
    before it having been fetched, is the error of the call. *)
Lemma fetch_columns_raise (ids : list string) (runs : list Run) (series_column : str_or_list)
    (cpre cpost : list string) (col : string) (e : exn) :
  requested series_column = cpre ++ col :: cpost ->
  Forall (fun c => forall label st, normalize_label label = Str c ->
            exists df st', _fetch_values neptune ids runs label st = (inr df, st')) cpre ->
  (forall label st, normalize_label label = Str col ->
     exists st', _fetch_values neptune ids runs label st = (inl e, st')) ->
  forall st, exists st', fetch_columns neptune ids runs series_column st = (inl e, st').
Proof.
  intros Hreq Hpre Hcol st.
  assert (Hsingle : forall label, requested label = cpre ++ col :: cpost ->
            normalize_label label = Str col ->
            exists st', (df ← _fetch_values neptune ids runs label; mret (Some df)) st
                        = (inl e, st')).
  { intros label _ Hlabel. destruct (Hcol label st Hlabel) as [st' Hst'].
    exists st'. by erewrite bind_inl. }
  destruct series_column as [s|l]; simpl in Hreq.
  - apply singleton_split in Hreq as (-> & -> & ->). by apply Hsingle.
  - unfold fetch_columns. destruct (length l =? 1)%nat eqn:Hlen.
    + apply Nat.eqb_eq in Hlen. destruct l as [|c [|c' l]]; simplify_eq/=.
      apply singleton_split in Hreq as (-> & -> & ->). by apply Hsingle.
    + subst l.
      destruct (mapM_raise (fun c => _fetch_values neptune ids runs (Str c))
                  cpre cpost col e) with (st := st) as [st' Hst'].
      * eapply Forall_impl; first exact Hpre. intros c Hc st0. by apply Hc.
      * intros st0. by apply Hcol.
      * exists st'. by erewrite bind_inl.
Qed.

(** The first fetch that raises anything but a [NeptuneException] is the
    error of [_fetch_values]. *)
Lemma _fetch_values_raise (pre post : list string) (r : string) (label : str_or_list)
    (col : string) (e : exn) (st : process) :
  normalize_label label = Str col ->
  tolerated neptune col pre ->
  fetch_values neptune r col = inl e ->
  is_NeptuneException e = false ->
  _fetch_values neptune (pre ++ r :: post) (mkRun <$> (pre ++ r :: post)) label st
  = (inl e,
     extend st ((fun r => FetchValues r col) <$> (pre ++ [r]))
               (Fetching label :: ((fun r => Warning r col) <$> absent neptune col pre))).
Proof.
  intros Hlabel Hpre Hf He.
  rewrite (_fetch_values_label _ _ _ _ _ _ Hlabel).
  erewrite bind_inl by by eapply fetch_loop_raise.
  by rewrite extend_extend.
Qed.

Lemma tolerated_none_present (col : string) (ids : list string) :
  tolerated neptune col ids ->
  present neptune col ids = [] ->
  Forall (fun r => lacks_series neptune col r = true) ids.
Proof.
  unfold present. induction 1 as [|r ids Hr _ IH]; intros Hnone; first done.
  destruct (tolerant_cases _ _ _ Hr) as [(value & Hf & Hl & Hh)|(e & Hf & He & Hl & Hh)].
  - by rewrite filter_cons_True in Hnone by done.
  - rewrite filter_cons_False in Hnone by (by rewrite Hh). constructor; auto.
Qed.

(** All the loop does to the process is to add remote calls and lines. *)
Lemma fetch_loop_extends (col : string) (pairs : list (string * Run)) :
  forall (d : list (string * SeriesFrame V)) (missing : nat),
  exists res cs out, forall st,
    fetch_loop neptune col pairs d missing st = (res, extend st cs out).
Proof.
  induction pairs as [|[id run] pairs IH]; intros d missing.
  - exists (inr (d, missing)), [], []. intros st. simpl. by rewrite extend_nil.
  - destruct (fetch_values neptune (with_id run) col) as [e|value] eqn:Hf.
    + destruct (is_NeptuneException e) eqn:He.
      * destruct (IH d (missing + 1)) as (res & cs & out & Hloop).
        exists res, (FetchValues (with_id run) col :: cs), (Warning id col :: out).
        intros st. erewrite fetch_loop_lacks by done. by rewrite Hloop, extend_extend.
      * exists (inl e), [FetchValues (with_id run) col], []. intros st.
        by erewrite fetch_loop_foreign.
    + destruct (IH (assoc_set id value d) missing) as (res & cs & out & Hloop).
      exists res, (FetchValues (with_id run) col :: cs), out. intros st.
      erewrite fetch_loop_has by done. by rewrite Hloop, extend_extend.
Qed.

(** A string and the one-element list of that string give the same result,
    the same remote calls and, after the progress line, the same lines. *)
Lemma _fetch_values_extends (ids : list string) (runs : list Run) (col : string) :
  exists res cs out, forall label st,
    normalize_label label = Str col ->
    _fetch_values neptune ids runs label st = (res, extend st cs (Fetching label :: out)).
Proof.
  destruct (fetch_loop_extends col (zip ids runs) [] 0) as (res & cs & out & Hloop).
  destruct res as [e|[id2value missing]].
  - exists (inl e), cs, out. intros label st Hlabel.
    rewrite (_fetch_values_label _ _ _ _ _ _ Hlabel).
    erewrite bind_inl by apply Hloop. by rewrite extend_extend.
  - destruct (missing =? length ids)%nat eqn:Hall.
    + exists (inl (ValueError ("No runs have a column named " +:+ col))), cs, out.
      intros label st Hlabel. rewrite (_fetch_values_label _ _ _ _ _ _ Hlabel).
      erewrite bind_inr by apply Hloop. cbv beta iota. rewrite Hall.
      by rewrite extend_extend.
    + exists (assemble col id2value pd.empty), cs, out.
      intros label st Hlabel. rewrite (_fetch_values_label _ _ _ _ _ _ Hlabel).
      erewrite bind_inr by apply Hloop. cbv beta iota. rewrite Hall.
      unfold lift. by rewrite extend_extend.
Qed.

End Errors.

(** ** Properties of [download] and [download_series] *)

Section Downloads.
Context {V : Type} (neptune : Neptune V).

(** C4. A call of [download] or of [download_series] in which [id], [state],
    [owner] and [tag] are all [None] raises the [ValueError] of the guard; the
    process is as it was before the call, so nothing was sent to the remote
    service. *)
Theorem no_selector_is_rejected (self : NeptuneDownloader) (series_column : str_or_list)
    (columns : option (list string)) (st : process) :
  download neptune self None None None None columns st
  = (inl (ValueError "At least one of id, state, owner, or tag must be provided."), st)
  /\ download_series neptune self series_column None None None None st
     = (inl (ValueError "At least one of id, state, owner, or tag must be provided."), st).
Proof. split; reflexivity. Qed.

(** C3. When the selectors resolve to the runs [ids] and a requested series
    is absent from every one of them (each fetch raises a
    [NeptuneException]), the series requested before it having been found,
    [download_series] raises the [ValueError] "No runs have a column named
    ..." for that series instead of returning a table. *)
Theorem download_series_absent_everywhere (self : NeptuneDownloader)
    (series_column : str_or_list) (cpre cpost : list string) (col : string)
    (id state owner tag : selector) (ids : list string) (st : process) :
  resolves neptune self id state owner tag ids ->
  requested series_column = cpre ++ col :: cpost ->
  Forall (fun c => found neptune c ids) cpre ->
  Forall (fun r => lacks_series neptune col r = true) ids ->
  (download_series neptune self series_column id state owner tag st).1
  = inl (ValueError ("No runs have a column named " +:+ col)).
Proof.
  intros Hres Hreq Hpre Habs.
  rewrite (download_series_resolved _ _ _ _ _ _ _ _ _ Hres).
  destruct (fetch_columns_raise neptune ids (mkRun <$> ids) series_column cpre cpost col
              (ValueError ("No runs have a column named " +:+ col)) Hreq)
    with (st := resolved self id state owner tag ids st) as [st' Hst'].
  - eapply Forall_impl; first exact Hpre.
    intros c Hfound label st0 Hlabel.
    destruct (_fetch_values_found neptune ids label c st0 Hlabel Hfound) as [df Hdf].
    by eexists _, _.
  - intros label st0 Hlabel. eexists. by apply _fetch_values_all_absent.
  - by rewrite Hst'.
Qed.

(** X15. When the selectors resolve to [n] distinct runs [ids], the requested
    series (a string or a one-element list) is present on [k >= 1] of them,
    with values, and absent from the others, [download_series] returns a
    table and raises nothing.  The table has exactly [k] columns, one per run
    that has the series, in the order of the runs and labelled
    [{series}_{run id}]; it has as many rows as the first of these series
    that is not empty, and row [i] of the column of a run is the [i]-th value
    fetched for that run (NaN past the end of its series); one warning is
    printed per run that lacks the series, [n - k] in all. *)
Theorem download_series_partial (self : NeptuneDownloader) (label : str_or_list)
    (col : string) (id state owner tag : selector) (ids : list string) (st : process) :
  normalize_label label = Str col ->
  resolves neptune self id state owner tag ids ->
  NoDup ids ->
  found neptune col ids ->
  exists (df : pd.DataFrame V) (st' : process),
    download_series neptune self label id state owner tag st = (inr (Some df), st')
    /\ (pd.columns df).*1 = column_label col <$> present neptune col ids
    /\ length (pd.columns df) = length (present neptune col ids)
    /\ pd.index df
       = first_nonempty_length (series_values neptune col <$> present neptune col ids)
    /\ (forall r i, r ∈ present neptune col ids -> i < pd.index df ->
          pd.cell df (column_label col r) i = Some (series_values neptune col r !! i))
    /\ stdout st' = stdout st ++ Fetching label
                      :: ((fun r => Warning r col) <$> absent neptune col ids)
    /\ length (absent neptune col ids) = length ids - length (present neptune col ids).
Proof.
  intros Hlabel Hres Hnd Hfound. pose proof Hfound as (Htol & Hsome & Hval).
  eexists (series_table col
             ((fun r => (r, series_values neptune col r)) <$> present neptune col ids)), _.
  split; [|split; [|split; [|split; [|split; [|split]]]]].
  - rewrite (download_series_resolved _ _ _ _ _ _ _ _ _ Hres).
    rewrite (fetch_columns_single _ _ _ _ _ Hlabel).
    erewrite bind_inr by by apply _fetch_values_table. reflexivity.
  - unfold series_table. cbn [pd.columns].
    rewrite <- !list_fmap_compose. by apply list_fmap_ext.
  - unfold series_table. cbn [pd.columns]. by rewrite !length_fmap.
  - unfold series_table. cbn [pd.index]. by rewrite <- list_fmap_compose.
  - intros r i Hr Hi. unfold pd.cell, series_table in *. cbn [pd.columns pd.index] in *.
    rewrite (assoc_get_fmap_inj (column_label col)
               (fun _ value => pd.reindex _ (Some <$> value)) r _ _).
    rewrite assoc_get_fresh_values by done. simpl.
    by apply reindex_lookup.
  - unfold resolved, extend. cbn [stdout]. by rewrite !app_nil_r.
  - pose proof (present_absent_length _ _ _ Htol). lia.
Qed.

(** X16. With distinct runs, a run whose frame of the requested series has no
    column ['value'] (the series exists and holds no value) ends the call
    with [KeyError('value')]: every run was fetched and the warnings were
    printed, and the error comes from the filling of the table. *)
Theorem download_series_hollow (self : NeptuneDownloader) (label : str_or_list)
    (col : string) (id state owner tag : selector) (ids : list string) (r : string)
    (st : process) :
  normalize_label label = Str col ->
  resolves neptune self id state owner tag ids ->
  NoDup ids ->
  tolerated neptune col ids ->
  r ∈ ids ->
  hollow neptune col r = true ->
  download_series neptune self label id state owner tag st
  = (inl (KeyError "value"),
     extend (resolved self id state owner tag ids st)
       ((fun r => FetchValues r col) <$> ids)
       (Fetching label :: ((fun r => Warning r col) <$> absent neptune col ids))).
Proof.
  intros Hlabel Hres Hnd Htol Hr Hhollow.
  rewrite (download_series_resolved _ _ _ _ _ _ _ _ _ Hres).
  rewrite (fetch_columns_single _ _ _ _ _ Hlabel).
  by erewrite bind_inl by by eapply _fetch_values_hollow.
Qed.

End Downloads.

(** ** What a call with several names, or with a one-element list, does *)

Section Shapes.
Context {V : Type} (neptune : Neptune V).

(** With no name or with more than one, [download_series] never hands a
    table back: a call that ends without an exception returns [None]. *)
Lemma fetch_columns_many_no_table (ids : list string) (runs : list Run) (l : list string)
    (st : process) (df : pd.DataFrame V) :
  length l <> 1 ->
  (fetch_columns neptune ids runs (Strs l) st).1 <> inr (Some df).
Proof.
  intros Hlen. unfold fetch_columns.
  destruct (Nat.eqb_spec (length l) 1) as [|_]; first done.
  unfold mbind, M_bind.
  destruct (mapM _ l st) as [[e|[|d ds]] st1]; simpl; try done.
  destruct (join_all d ds st1) as [[e|d'] st2]; simpl; done.
Qed.

(** [download_series], one step at a time. *)
Lemma download_series_unfold (self : NeptuneDownloader) (series_column : str_or_list)
    (id state owner tag : selector) (st : process) :
  download_series neptune self series_column id state owner tag st
  = if all [is_none id; is_none state; is_none owner; is_none tag] then
      (inl (ValueError "At least one of id, state, owner, or tag must be provided."), st)
    else
      match project_fetch_runs_table neptune (project self) owner id state tag
              (Some (Str "sys/id")) st with
      | (inl e, st1) => (inl e, st1)
      | (inr table, st1) =>
          match assoc_get "sys/id" table with
          | None => (inl (KeyError "sys/id"), st1)
          | Some ids =>
              match mapM (fun run_id =>
                            neptune_init_run neptune (project_name self) run_id "read-only"
                              (api_token self)) ids st1 with
              | (inl e, st2) => (inl e, st2)
              | (inr runs, st2) => fetch_columns neptune ids runs series_column st2
              end
          end
      end.
Proof.
  unfold download_series. destruct (all _); first done.
  unfold mbind, M_bind.
  destruct (project_fetch_runs_table _ _ _ _ _ _ _ st) as [[e|table] st1]; first done.
  destruct (assoc_get "sys/id" table) as [ids|]; last done.
  unfold mret, M_ret. by destruct (mapM _ ids st1) as [[e|runs] st2].
Qed.

(** The same for the whole of [download_series]: asked for several names
    (or for none), it returns no table. *)
Lemma download_series_many_no_table (self : NeptuneDownloader) (l : list string)
    (id state owner tag : selector) (st : process) (df : pd.DataFrame V) :
  length l <> 1 ->
  (download_series neptune self (Strs l) id state owner tag st).1 <> inr (Some df).
Proof.
  intros Hlen. rewrite download_series_unfold.
  destruct (all _); first done.
  destruct (project_fetch_runs_table _ _ _ _ _ _ _ st) as [[e|table] st1]; first done.
  destruct (assoc_get "sys/id" table) as [ids|]; last done.
  destruct (mapM _ ids st1) as [[e|runs] st2]; first done.
  by apply fetch_columns_many_no_table.
Qed.

(** The calls with [s] and with [[s]] end in the same way; when they get as
    far as the series they print the same lines after the progress line. *)
Lemma download_series_label (self : NeptuneDownloader) (s : string)
    (id state owner tag : selector) (st : process) :
  (exists res st', forall label, normalize_label label = Str s ->
     download_series neptune self label id state owner tag st = (res, st'))
  \/ (exists res st1 cs out, forall label, normalize_label label = Str s ->
        download_series neptune self label id state owner tag st
        = (res, extend st1 cs (Fetching label :: out))).
Proof.
  destruct (all [is_none id; is_none state; is_none owner; is_none tag]) eqn:Hsel.
  { left. eexists _, _. intros label _. by rewrite download_series_unfold, Hsel. }
  destruct (project_fetch_runs_table neptune (project self) owner id state tag
              (Some (Str "sys/id")) st) as [[e|table] st1] eqn:Hquery.
  { left. eexists _, _. intros label _. by rewrite download_series_unfold, Hsel, Hquery. }
  destruct (assoc_get "sys/id" table) as [ids|] eqn:Hids; last first.
  { left. eexists _, _. intros label _.
    by rewrite download_series_unfold, Hsel, Hquery, Hids. }
  destruct (mapM (fun run_id =>
                    neptune_init_run neptune (project_name self) run_id "read-only"
                      (api_token self)) ids st1) as [[e|runs] st2] eqn:Hruns.
  { left. eexists _, _. intros label _.
    by rewrite download_series_unfold, Hsel, Hquery, Hids, Hruns. }
  right. destruct (_fetch_values_extends neptune ids runs s) as (res & cs & out & Hfetch).
  exists (match res with inl e => inl e | inr df => inr (Some df) end), st2, cs, out.
  intros label Hlabel. rewrite download_series_unfold, Hsel, Hquery, Hids, Hruns.
  assert (fetch_columns neptune ids runs label
          = (df ← _fetch_values neptune ids runs label; mret (Some df))) as ->.
  { by destruct (label_cases _ _ Hlabel) as [-> | ->]. }
  unfold mbind, M_bind. rewrite (Hfetch label st2 Hlabel). by destruct res.
Qed.

(** C8 (amended). The calls of [download_series] with the one-element list
    [[s]] and with the string [s] return the same result (the same table with
    the same column labels, or the same exception), leave the same
    environment, make the same remote calls and print the same warnings.
    Their output is the same up to the progress line, which shows the
    argument as it was passed. *)
Theorem download_series_one_element_list (self : NeptuneDownloader) (s : string)
    (id state owner tag : selector) (st : process) :
  let a := download_series neptune self (Strs [s]) id state owner tag st in
  let b := download_series neptune self (Str s) id state owner tag st in
  a.1 = b.1
  /\ environ a.2 = environ b.2
  /\ calls a.2 = calls b.2
  /\ normalize_output <$> stdout a.2 = normalize_output <$> stdout b.2
  /\ filter (fun o => is_warning o = true) (stdout a.2)
     = filter (fun o => is_warning o = true) (stdout b.2).
Proof.
  intros a b. subst a b.
  destruct (download_series_label self s id state owner tag st)
    as [(res & st' & Hsame)|(res & st1 & cs & out & Hsame)].
  - rewrite (Hsame (Strs [s])), (Hsame (Str s)) by reflexivity. done.
  - rewrite (Hsame (Strs [s])), (Hsame (Str s)) by reflexivity.
    unfold extend. cbn [fst snd environ calls stdout].
    rewrite !fmap_app, !fmap_cons, !filter_app. cbn [normalize_output normalize_label].
    rewrite !(filter_cons_False _ (Fetching _)) by done. done.
Qed.

End Shapes.

(** ** Failures of the remote layer *)

Lemma mapM_app_raise {A B : Type} (f : A -> M B) (pre post : list A) (a : A) (e : exn) :
  forall (bs : list B) (st st1 st2 : process),
  mapM f pre st = (inr bs, st1) ->
  f a st1 = (inl e, st2) ->
  mapM f (pre ++ a :: post) st = (inl e, st2).
Proof.
  induction pre as [|x pre IH]; intros bs st st1 st2 Hpre Ha; simpl in *.
  - injection Hpre as _ <-. by erewrite bind_inl.
  - unfold mbind at 1, M_bind at 1 in Hpre.
    destruct (f x st) as [[e'|b] st'] eqn:Hx; first done.
    unfold mbind at 1, M_bind at 1 in Hpre.
    destruct (mapM f pre st') as [[e'|bs'] st''] eqn:Hrest; first done.
    injection Hpre as _ <-.
    erewrite bind_inr by done. erewrite bind_inl; first done. by eapply IH.
Qed.

Section Failures.
Context {V : Type} (neptune : Neptune V).

Lemma shown_many (l : list string) (c : string) :
  length l <> 1 -> shown (Strs l) c = Str c.
Proof. by destruct l as [|a [|b l]]. Qed.

(** The series that are found are fetched one after the other. *)
Lemma mapM_fetch_values_found (series_column : str_or_list) (ids names : list string) :
  (forall c, shown series_column c = Str c) ->
  Forall (fun c => found neptune c ids) names ->
  forall st, exists dfs,
    mapM (fun c => _fetch_values neptune ids (mkRun <$> ids) (Str c)) names st
    = (inr dfs, extend st (fetches names ids) (lines neptune series_column names ids))
    /\ length dfs = length names.
Proof.
  intros Hshown. induction 1 as [|c names Hfound _ IH]; intros st.
  - exists []. by rewrite extend_nil.
  - cbn [mapM].
    destruct (_fetch_values_found neptune ids (Str c) c st eq_refl Hfound) as [df Hdf].
    erewrite bind_inr by exact Hdf.
    destruct (IH (extend st ((fun r => FetchValues r c) <$> ids)
                    (Fetching (Str c) :: ((fun r => Warning r c) <$> absent neptune c ids))))
      as (dfs & Hrest & Hlen).
    erewrite bind_inr by done. exists (df :: dfs). split.
    + unfold mret, M_ret. rewrite extend_extend. unfold fetches, lines. simpl.
      by rewrite Hshown.
    + simpl. by rewrite Hlen.
Qed.

(** An error of [_fetch_values] on one of the requested series, the series
    before it having been found, ends the call where that series stopped. *)
Lemma fetch_columns_raise_at (ids : list string) (series_column : str_or_list)
    (cpre cpost : list string) (col : string) (e : exn) (cs : list remote_call)
    (out : list output) :
  requested series_column = cpre ++ col :: cpost ->
  Forall (fun c => found neptune c ids) cpre ->
  (forall label st, normalize_label label = Str col ->
     _fetch_values neptune ids (mkRun <$> ids) label st
     = (inl e, extend st cs (Fetching label :: out))) ->
  forall st,
    fetch_columns neptune ids (mkRun <$> ids) series_column st
    = (inl e,
       extend st (fetches cpre ids ++ cs)
         (lines neptune series_column cpre ids ++ Fetching (shown series_column col) :: out)).
Proof.
  intros Hreq Hpre Hcol st.
  destruct series_column as [s|l]; simpl in Hreq.
  - apply singleton_split in Hreq as (-> & -> & ->).
    unfold fetch_columns. by erewrite bind_inl by by apply Hcol.
  - destruct (Nat.eqb_spec (length l) 1) as [Hone|Hmany].
    + destruct l as [|c [|c' l]]; simplify_eq/=.
      apply singleton_split in Hreq as (-> & -> & ->).
      by erewrite bind_inl by by apply Hcol.
    + unfold fetch_columns. apply Nat.eqb_neq in Hmany as Hlen. rewrite Hlen. subst l.
      destruct (mapM_fetch_values_found (Strs (cpre ++ col :: cpost)) ids cpre) with (st := st)
        as (dfs & Hdfs & _); [by intros c; apply shown_many|done|].
      erewrite bind_inl; first reflexivity.
      erewrite mapM_app_raise; [|exact Hdfs|by apply Hcol].
      by rewrite extend_extend, shown_many.
Qed.

(** C5 (amended). In a call of [download_series] with a selector, a failure
    of the query of the run table, a failure to open a run, and an exception
    of a fetch that is not a [NeptuneException] each end the call at once
    with that very exception: the remote calls made are those up to the
    failing one, each made once.  A fetch that raises a [NeptuneException],
    of whatever class, is taken for a missing series: in a call for one
    series in which no fetch raises anything else, every run is fetched
    once, a warning is printed for each run whose fetch raised, and these
    runs count as missing: the call raises the no-such-series [ValueError]
    when they are all the runs, and otherwise the table has no column for
    them. *)
Theorem download_series_propagates (self : NeptuneDownloader) (series_column : str_or_list)
    (id state owner tag : selector) (st : process) :
  all [is_none id; is_none state; is_none owner; is_none tag] = false ->
  (forall e,
     fetch_runs_table neptune owner id state tag (Some (Str "sys/id")) = inl e ->
     download_series neptune self series_column id state owner tag st
     = (inl e, extend st [FetchRunsTable owner id state tag (Some (Str "sys/id"))] []))
  /\ (forall table pre r post e,
        fetch_runs_table neptune owner id state tag (Some (Str "sys/id")) = inr table ->
        assoc_get "sys/id" table = Some (pre ++ r :: post) ->
        Forall (fun r => init_run neptune (project_name self) r (api_token self) = None) pre ->
        init_run neptune (project_name self) r (api_token self) = Some e ->
        download_series neptune self series_column id state owner tag st
        = (inl e,
           extend st
             (FetchRunsTable owner id state tag (Some (Str "sys/id"))
                :: ((fun r => InitRun (project_name self) r "read-only" (api_token self))
                      <$> (pre ++ [r])))
             []))
  /\ (forall cpre col cpost pre r post e,
        resolves neptune self id state owner tag (pre ++ r :: post) ->
        requested series_column = cpre ++ col :: cpost ->
        Forall (fun c => found neptune c (pre ++ r :: post)) cpre ->
        tolerated neptune col pre ->
        fetch_values neptune r col = inl e ->
        is_NeptuneException e = false ->
        download_series neptune self series_column id state owner tag st
        = (inl e,
           extend (resolved self id state owner tag (pre ++ r :: post) st)
             (fetches cpre (pre ++ r :: post) ++ ((fun r => FetchValues r col) <$> (pre ++ [r])))
             (lines neptune series_column cpre (pre ++ r :: post)
                ++ Fetching (shown series_column col)
                   :: ((fun r => Warning r col) <$> absent neptune col pre))))
  /\ (forall ids col,
        resolves neptune self id state owner tag ids ->
        normalize_label series_column = Str col ->
        tolerated neptune col ids ->
        (download_series neptune self series_column id state owner tag st).2
        = extend (resolved self id state owner tag ids st)
            ((fun r => FetchValues r col) <$> ids)
            (Fetching series_column :: ((fun r => Warning r col) <$> absent neptune col ids))
        /\ (present neptune col ids = [] ->
            (download_series neptune self series_column id state owner tag st).1
            = inl (ValueError ("No runs have a column named " +:+ col)))
        /\ (present neptune col ids <> [] -> valued neptune col ids -> NoDup ids ->
            (download_series neptune self series_column id state owner tag st).1
            = inr (Some (series_table col
                           ((fun r => (r, series_values neptune col r))
                              <$> present neptune col ids))))).
Proof.
  intros Hsel. split; [|split; [|split]].
  - intros e Hquery. rewrite download_series_unfold, Hsel.
    unfold project_fetch_runs_table. erewrite bind_inr by apply log_call_extend.
    unfold lift. by rewrite Hquery.
  - intros table pre r post e Hquery Hids Hpre Hr.
    rewrite download_series_unfold, Hsel.
    unfold project_fetch_runs_table. erewrite bind_inr by apply log_call_extend.
    unfold lift. rewrite Hquery, Hids.
    erewrite init_runs_raise by done. by rewrite extend_extend.
  - intros cpre col cpost pre r post e Hres Hreq Hcpre Hpre Hf He.
    rewrite (download_series_resolved _ _ _ _ _ _ _ _ _ Hres).
    apply (fetch_columns_raise_at _ _ cpre cpost); [done|done|].
    intros label st0 Hlabel. by apply _fetch_values_raise.
  - intros ids col Hres Hlabel Htol.
    rewrite (download_series_resolved _ _ _ _ _ _ _ _ _ Hres).
    rewrite (fetch_columns_single _ _ _ _ _ Hlabel).
    destruct (decide (present neptune col ids = [])) as [Hnone|Hsome].
    + pose proof (tolerated_none_present _ _ _ Htol Hnone) as Habs.
      erewrite bind_inl by by apply _fetch_values_all_absent.
      destruct (all_absent _ _ _ Habs) as [_ ->]. by repeat split.
    + unfold mbind, M_bind. rewrite (_fetch_values_some_present _ _ _ col) by done.
      split; [|split]; try done.
      * by destruct (assemble col _ _).
      * intros _ Hval Hnd.
        assert (found neptune col ids) as Hfound by done.
        pose proof (_fetch_values_table neptune ids series_column col
                      (resolved self id state owner tag ids st) Hlabel Hfound Hnd) as Htable.
        rewrite (_fetch_values_some_present _ _ _ col) in Htable by done.
        injection Htable as ->. reflexivity.
Qed.

End Failures.

(** ** The worked example *)

(** C1. Asked for the two series [loss] and [acc] of the runs tagged [expA],
    [download_series] fetches both tables and joins them, and then returns
    [None]: the joined table is not handed back. *)
Theorem download_series_two_names_returns_None :
  download_series (Lab.neptune (inl MissingFieldException)) Lab.self (Strs ["loss"; "acc"])
    None None None (Some (Str "expA")) Lab.start
  = (inr None,
     {| environ := ∅;
        calls := [FetchRunsTable None None None (Some (Str "expA")) (Some (Str "sys/id"));
                  InitRun "lab" "R1" "read-only" "token";
                  InitRun "lab" "R2" "read-only" "token";
                  FetchValues "R1" "loss"; FetchValues "R2" "loss";
                  FetchValues "R1" "acc"; FetchValues "R2" "acc"];
        stdout := [Fetching (Str "loss"); Warning "R2" "loss"; Fetching (Str "acc")] |}).
Proof. vm_compute. reflexivity. Qed.

(** The single name [loss] gives the table of the example. *)
Example download_series_loss :
  (download_series (Lab.neptune (inl MissingFieldException)) Lab.self (Str "loss")
     None None None (Some (Str "expA")) Lab.start).1
  = inr (Some {| pd.index := 3;
                 pd.columns := [("loss_R1", [Some (9 # 10); Some (5 # 10); Some (2 # 10)])] |}).
Proof. vm_compute. reflexivity. Qed.

(** C2. Of the three runs tagged [expC], [R1] logged [loss], [R2] has no such
    series and [R3] has the series with no value in it, so that its frame
    has no column ['value'].  The series is present on two runs of three,
    and the call does not return the table of these two: after the three
    fetches and the warning for [R2], the filling of the table raises
    [KeyError('value')] at the frame of [R3]. *)
Theorem download_series_empty_series_raises_KeyError :
  download_series (Lab.neptune (inl MissingFieldException)) Lab.self (Str "loss")
    None None None (Some (Str "expC")) Lab.start
  = (inl (KeyError "value"),
     {| environ := ∅;
        calls := [FetchRunsTable None None None (Some (Str "expC")) (Some (Str "sys/id"));
                  InitRun "lab" "R1" "read-only" "token";
                  InitRun "lab" "R2" "read-only" "token";
                  InitRun "lab" "R3" "read-only" "token";
                  FetchValues "R1" "loss"; FetchValues "R2" "loss"; FetchValues "R3" "loss"];
        stdout := [Fetching (Str "loss"); Warning "R2" "loss"] |}).
Proof. vm_compute. reflexivity. Qed.

(** C9. No run is tagged [expB]: the run table comes back as a frame without
    columns, and the call ends on the subscript ['sys/id'] with
    [KeyError('sys/id')], before the loop that would count zero missing
    runs out of zero is reached. *)
Theorem download_series_no_runs_raises_KeyError :
  download_series (Lab.neptune (inl MissingFieldException)) Lab.self (Str "loss")
    None None None (Some (Str "expB")) Lab.start
  = (inl (KeyError "sys/id"),
     {| environ := ∅;
        calls := [FetchRunsTable None None None (Some (Str "expB")) (Some (Str "sys/id"))];
        stdout := [] |}).
Proof. vm_compute. reflexivity. Qed.

(** C5, as stated, fails: the run [R2] loses its connection while [loss] is
    fetched, which is not the missing-series condition; the exception does
    not reach the caller, the call prints the warning of a missing series
    and returns the table of [R1]. *)
Lemma lost_connection_is_not_propagated :
  let neptune := Lab.neptune (inl (NeptuneException "NeptuneConnectionLostException")) in
  let call := download_series neptune Lab.self (Str "loss")
                None None None (Some (Str "expA")) Lab.start in
  fetch_values neptune "R2" "loss" = inl (NeptuneException "NeptuneConnectionLostException")
  /\ NeptuneException "NeptuneConnectionLostException" <> MissingFieldException
  /\ call.1 <> inl (NeptuneException "NeptuneConnectionLostException")
  /\ call.1 = inr (Some {| pd.index := 3;
                           pd.columns := [("loss_R1",
                                           [Some (9 # 10); Some (5 # 10); Some (2 # 10)])] |})
  /\ stdout call.2 = [Fetching (Str "loss"); Warning "R2" "loss"].
Proof. vm_compute. repeat split; discriminate. Qed.

(** C8, as stated, fails: the call with [["loss"]] prints the list on its
    progress line, the call with ["loss"] the string. *)
Lemma one_element_list_prints_the_list :
  let a := download_series (Lab.neptune (inl MissingFieldException)) Lab.self
             (Strs ["loss"]) None None None (Some (Str "expA")) Lab.start in
  let b := download_series (Lab.neptune (inl MissingFieldException)) Lab.self
             (Str "loss") None None None (Some (Str "expA")) Lab.start in
  stdout a.2 = [Fetching (Strs ["loss"]); Warning "R2" "loss"]
  /\ stdout b.2 = [Fetching (Str "loss"); Warning "R2" "loss"]
  /\ a <> b.
Proof. vm_compute. repeat split. discriminate. Qed.

(** ** The theorems at work on the example *)

Lemma lab_resolves (loss_of_R2 : exn + SeriesFrame Q) :
  resolves (Lab.neptune loss_of_R2) Lab.self None None None (Some (Str "expA")) ["R1"; "R2"].
Proof.
  split; first reflexivity. split.
  - exists [("sys/id", ["R1"; "R2"])]. split; reflexivity.
  - repeat constructor.
Defined.

Lemma lab_resolves_three (loss_of_R2 : exn + SeriesFrame Q) :
  resolves (Lab.neptune loss_of_R2) Lab.self None None None (Some (Str "expC"))
    ["R1"; "R2"; "R3"].
Proof.
  split; first reflexivity. split.
  - exists [("sys/id", ["R1"; "R2"; "R3"])]. split; reflexivity.
  - repeat constructor.
Defined.

Lemma lab_found_acc (loss_of_R2 : exn + SeriesFrame Q) :
  found (Lab.neptune loss_of_R2) "acc" ["R1"; "R2"].
Proof.
  split; [|split].
  - repeat constructor.
  - vm_compute. discriminate.
  - repeat constructor.
Defined.

Lemma lab_found_loss :
  found (Lab.neptune (inl MissingFieldException)) "loss" ["R1"; "R2"].
Proof.
  split; [|split].
  - repeat constructor.
  - vm_compute. discriminate.
  - repeat constructor.
Defined.

Lemma init_without_token_fails_witness :
  environ Lab.start !! NEPTUNE_API_TOKEN = None
  /\ __init__ (Lab.neptune (inl MissingFieldException)) "lab" None Lab.start
     = (inl (ValueError "Environment variable NEPTUNE_API_TOKEN not found."), Lab.start).
Proof.
  split; first reflexivity.
  apply init_without_token_fails. reflexivity.
Defined.

Lemma download_series_absent_everywhere_witness :
  (download_series (Lab.neptune (inl MissingFieldException)) Lab.self (Strs ["acc"; "f1"])
     None None None (Some (Str "expA")) Lab.start).1
  = inl (ValueError "No runs have a column named f1").
Proof.
  apply (download_series_absent_everywhere (Lab.neptune (inl MissingFieldException)) Lab.self
           (Strs ["acc"; "f1"]) ["acc"] [] "f1" None None None (Some (Str "expA"))
           ["R1"; "R2"] Lab.start).
  - apply lab_resolves.
  - reflexivity.
  - constructor; last constructor. apply lab_found_acc.
  - repeat constructor.
Defined.

Lemma download_series_propagates_witness :
  download_series Lab.offline Lab.self (Str "loss")
    None None None (Some (Str "expA")) Lab.start
  = (inl (RemoteError "ConnectionError"),
     extend Lab.start
       [FetchRunsTable None None None (Some (Str "expA")) (Some (Str "sys/id"))] [])
  /\ download_series Lab.locked Lab.self (Str "loss")
       None None None (Some (Str "expA")) Lab.start
     = (inl (RemoteError "Timeout"),
        extend Lab.start
          [FetchRunsTable None None None (Some (Str "expA")) (Some (Str "sys/id"));
           InitRun "lab" "R1" "read-only" "token";
           InitRun "lab" "R2" "read-only" "token"] [])
  /\ download_series (Lab.neptune (inl (RemoteError "ReadTimeout"))) Lab.self
       (Strs ["acc"; "loss"]) None None None (Some (Str "expA")) Lab.start
     = (inl (RemoteError "ReadTimeout"),
        extend (resolved Lab.self None None None (Some (Str "expA")) ["R1"; "R2"] Lab.start)
          [FetchValues "R1" "acc"; FetchValues "R2" "acc";
           FetchValues "R1" "loss"; FetchValues "R2" "loss"]
          [Fetching (Str "acc"); Fetching (Str "loss")])
  /\ (download_series (Lab.neptune (inl (NeptuneException "NeptuneConnectionLostException")))
        Lab.self (Str "loss") None None None (Some (Str "expA")) Lab.start).2
     = extend (resolved Lab.self None None None (Some (Str "expA")) ["R1"; "R2"] Lab.start)
         [FetchValues "R1" "loss"; FetchValues "R2" "loss"]
         [Fetching (Str "loss"); Warning "R2" "loss"]
  /\ (download_series (Lab.neptune (inl (NeptuneException "NeptuneConnectionLostException")))
        Lab.self (Str "loss") None None None (Some (Str "expA")) Lab.start).1
     = inr (Some (series_table "loss" [("R1", [9 # 10; 5 # 10; 2 # 10])]))
  /\ (download_series (Lab.neptune (inl (NeptuneException "NeptuneConnectionLostException")))
        Lab.self (Str "f1") None None None (Some (Str "expA")) Lab.start).1
     = inl (ValueError "No runs have a column named f1").
Proof.
  split; [|split; [|split; [|split; [|split]]]].
  - destruct (download_series_propagates Lab.offline Lab.self (Str "loss")
                None None None (Some (Str "expA")) Lab.start eq_refl) as (Hquery & _).
    apply Hquery. reflexivity.
  - destruct (download_series_propagates Lab.locked Lab.self (Str "loss")
                None None None (Some (Str "expA")) Lab.start eq_refl) as (_ & Hopen & _).
    apply (Hopen [("sys/id", ["R1"; "R2"])] ["R1"] "R2" []); try reflexivity.
    repeat constructor.
  - destruct (download_series_propagates (Lab.neptune (inl (RemoteError "ReadTimeout")))
                Lab.self (Strs ["acc"; "loss"]) None None None (Some (Str "expA")) Lab.start
                eq_refl)
      as (_ & _ & Hfetch & _).
    apply (Hfetch ["acc"] "loss" [] ["R1"] "R2" []); try reflexivity.
    + apply lab_resolves.
    + constructor; last constructor. apply lab_found_acc.
    + repeat constructor.
  - destruct (download_series_propagates
                (Lab.neptune (inl (NeptuneException "NeptuneConnectionLostException")))
                Lab.self (Str "loss") None None None (Some (Str "expA")) Lab.start eq_refl)
      as (_ & _ & _ & Htolerated).
    destruct (Htolerated ["R1"; "R2"] "loss") as (Hstate & _ & _);
      [apply lab_resolves|reflexivity|repeat constructor|].
    exact Hstate.
  - destruct (download_series_propagates
                (Lab.neptune (inl (NeptuneException "NeptuneConnectionLostException")))
                Lab.self (Str "loss") None None None (Some (Str "expA")) Lab.start eq_refl)
      as (_ & _ & _ & Htolerated).
    destruct (Htolerated ["R1"; "R2"] "loss") as (_ & _ & Htable);
      [apply lab_resolves|reflexivity|repeat constructor|].
    apply Htable.
    + vm_compute. discriminate.
    + repeat constructor.
    + apply NoDup_cons. split; last apply NoDup_singleton.
      intros Hin. apply list_elem_of_singleton in Hin. discriminate.
  - destruct (download_series_propagates
                (Lab.neptune (inl (NeptuneException "NeptuneConnectionLostException")))
                Lab.self (Str "f1") None None None (Some (Str "expA")) Lab.start eq_refl)
      as (_ & _ & _ & Htolerated).
    destruct (Htolerated ["R1"; "R2"] "f1") as (_ & Hnone & _);
      [apply lab_resolves|reflexivity|repeat constructor|].
    apply Hnone. reflexivity.
Defined.

(** ** More on the constructor *)

Section ConstructorPaths.
Context {V : Type} (neptune : Neptune V).

(** X1. The token of the downloader is the argument when there is one and
    the variable [NEPTUNE_API_TOKEN] otherwise.  When the project can be
    opened, the constructor opens it once, read-only, with that token, and
    returns a downloader that keeps the token; afterwards the variable
    holds the token as well. *)
Theorem init_opens_project (project_name : string) (api_token : option string)
    (token : string) (st : process) :
  api_token = Some token \/ (api_token = None /\ environ st !! NEPTUNE_API_TOKEN = Some token) ->
  init_project neptune project_name token = None ->
  __init__ neptune project_name api_token st
  = (inr {| api_token := token; project_name := project_name;
            project := {| name := project_name |} |},
     {| environ := <[NEPTUNE_API_TOKEN := token]> (environ st);
        calls := calls st ++ [InitProject project_name "read-only" token];
        stdout := stdout st |}).
Proof.
  intros [-> | [-> Henv]] Hopen; unfold __init__, mbind, M_bind, environ_contains,
    environ_get, environ_set, neptune_init_project, log_call, raise, mret, M_ret; simpl.
  - by rewrite Hopen.
  - rewrite Henv. rewrite bool_decide_eq_true_2 by eauto. simpl.
    rewrite Henv, Hopen. by rewrite insert_id.
Qed.

(** X2. A failure to open the project ends the construction with the
    exception of the client, raised as it is, after that one remote call. *)
Theorem init_project_failure_propagates (project_name : string) (api_token : option string)
    (token : string) (e : exn) (st : process) :
  api_token = Some token \/ (api_token = None /\ environ st !! NEPTUNE_API_TOKEN = Some token) ->
  init_project neptune project_name token = Some e ->
  (__init__ neptune project_name api_token st).1 = inl e
  /\ calls (__init__ neptune project_name api_token st).2
     = calls st ++ [InitProject project_name "read-only" token].
Proof.
  intros [-> | [-> Henv]] Hopen; unfold __init__, mbind, M_bind, environ_contains,
    environ_get, environ_set, neptune_init_project, log_call, raise, mret, M_ret; simpl.
  - by rewrite Hopen.
  - rewrite Henv. rewrite bool_decide_eq_true_2 by eauto. simpl.
    by rewrite Henv, Hopen.
Qed.

(** X3. Whatever its arguments and however it ends, the constructor leaves
    every variable of the environment other than [NEPTUNE_API_TOKEN] as it
    was, and prints nothing. *)
Theorem init_keeps_other_variables (project_name : string) (api_token : option string)
    (variable : string) (st : process) :
  variable <> NEPTUNE_API_TOKEN ->
  environ (__init__ neptune project_name api_token st).2 !! variable = environ st !! variable
  /\ stdout (__init__ neptune project_name api_token st).2 = stdout st.
Proof.
  intros Hother. destruct api_token as [token|];
    unfold __init__, mbind, M_bind, environ_contains, environ_get, environ_set,
      neptune_init_project, log_call, raise, mret, M_ret; simpl.
  - destruct (init_project neptune project_name token); simpl;
      by rewrite lookup_insert_ne.
  - destruct (environ st !! NEPTUNE_API_TOKEN) as [tok|] eqn:Hlook.
    + rewrite bool_decide_eq_true_2 by eauto. simpl. rewrite Hlook.
      by destruct (init_project neptune project_name tok).
    + rewrite bool_decide_eq_false_2; first done. intros [v Hv]. discriminate.
Qed.

End ConstructorPaths.

(** ** More on [download] *)

Section DownloadPaths.
Context {V : Type} (neptune : Neptune V).

Lemma some_selector (id state owner tag : selector) :
  is_Some id \/ is_Some state \/ is_Some owner \/ is_Some tag ->
  all [is_none id; is_none state; is_none owner; is_none tag] = false.
Proof.
  intros [[x ->]|[[x ->]|[[x ->]|[x ->]]]]; simpl;
    repeat (done || match goal with |- context [is_none ?o] => destruct o; simpl end).
Qed.

(** X4. With at least one selector, [download] sends exactly one query for
    the run table, with the selectors and the columns as they were given, and
    returns what the client answers: its table, or its exception as it is.
    It prints nothing and leaves the environment alone. *)
Theorem download_passes_through (self : NeptuneDownloader) (id state owner tag : selector)
    (columns : option (list string)) (st : process) :
  is_Some id \/ is_Some state \/ is_Some owner \/ is_Some tag ->
  download neptune self id state owner tag columns st
  = (fetch_runs_table neptune owner id state tag (Strs <$> columns),
     {| environ := environ st;
        calls := calls st ++ [FetchRunsTable owner id state tag (Strs <$> columns)];
        stdout := stdout st |}).
Proof.
  intros Hsel%some_selector. unfold download. rewrite Hsel.
  unfold project_fetch_runs_table, mbind, M_bind, log_call, lift. reflexivity.
Qed.

End DownloadPaths.

(** ** More on [download_series]: where a call stops *)

Section SeriesPaths.
Context {V : Type} (neptune : Neptune V).

(** X5. When the run table comes back without a column ['sys/id'],
    [download_series] raises [KeyError('sys/id')] right after the query: no
    run is opened and nothing is printed. *)
Theorem download_series_without_sys_id (self : NeptuneDownloader)
    (series_column : str_or_list) (id state owner tag : selector) (table : RunsTable)
    (st : process) :
  is_Some id \/ is_Some state \/ is_Some owner \/ is_Some tag ->
  fetch_runs_table neptune owner id state tag (Some (Str "sys/id")) = inr table ->
  assoc_get "sys/id" table = None ->
  download_series neptune self series_column id state owner tag st
  = (inl (KeyError "sys/id"),
     extend st [FetchRunsTable owner id state tag (Some (Str "sys/id"))] []).
Proof.
  intros Hsel%some_selector Htable Hnone.
  rewrite download_series_unfold, Hsel. unfold project_fetch_runs_table.
  erewrite bind_inr by apply log_call_extend. unfold lift. by rewrite Htable, Hnone.
Qed.

(** X6. Asked for the empty list of names, [download_series] resolves and
    opens the runs and then raises [IndexError] (there is no [dfs[0]]): no
    series is fetched and nothing is printed. *)
Theorem download_series_no_names (self : NeptuneDownloader)
    (id state owner tag : selector) (ids : list string) (st : process) :
  resolves neptune self id state owner tag ids ->
  download_series neptune self (Strs []) id state owner tag st
  = (inl (IndexError "list index out of range"), resolved self id state owner tag ids st).
Proof.
  intros Hres. by rewrite (download_series_resolved _ _ _ _ _ _ _ _ _ Hres).
Qed.

(** X7. The first run that cannot be opened ends the call with the exception
    of the client: the runs after it are not opened, no series is fetched
    and nothing is printed. *)
Theorem download_series_stops_at_locked_run (self : NeptuneDownloader)
    (series_column : str_or_list) (id state owner tag : selector) (table : RunsTable)
    (pre post : list string) (r : string) (e : exn) (st : process) :
  is_Some id \/ is_Some state \/ is_Some owner \/ is_Some tag ->
  fetch_runs_table neptune owner id state tag (Some (Str "sys/id")) = inr table ->
  assoc_get "sys/id" table = Some (pre ++ r :: post) ->
  Forall (fun r => init_run neptune (project_name self) r (api_token self) = None) pre ->
  init_run neptune (project_name self) r (api_token self) = Some e ->
  download_series neptune self series_column id state owner tag st
  = (inl e,
     extend st
       (FetchRunsTable owner id state tag (Some (Str "sys/id"))
          :: ((fun r => InitRun (project_name self) r "read-only" (api_token self))
                <$> (pre ++ [r])))
       []).
Proof.
  intros Hsel%some_selector Htable Hids Hpre Hr.
  rewrite download_series_unfold, Hsel. unfold project_fetch_runs_table.
  erewrite bind_inr by apply log_call_extend. unfold lift. rewrite Htable, Hids.
  erewrite init_runs_raise by done. by rewrite extend_extend.
Qed.

(** X8. In a call for one series, the first fetch that raises anything but a
    [NeptuneException] ends the call at once: the runs before it were
    fetched, with a warning for each one that lacks the series, and the runs
    after it are never asked. *)
Theorem download_series_stops_at_failed_fetch (self : NeptuneDownloader)
    (label : str_or_list) (col : string) (id state owner tag : selector)
    (pre post : list string) (r : string) (e : exn) (st : process) :
  normalize_label label = Str col ->
  resolves neptune self id state owner tag (pre ++ r :: post) ->
  tolerated neptune col pre ->
  fetch_values neptune r col = inl e ->
  is_NeptuneException e = false ->
  download_series neptune self label id state owner tag st
  = (inl e,
     extend (resolved self id state owner tag (pre ++ r :: post) st)
       ((fun r => FetchValues r col) <$> (pre ++ [r]))
       (Fetching label :: ((fun r => Warning r col) <$> absent neptune col pre))).
Proof.
  intros Hlabel Hres Hpre Hf He.
  rewrite (download_series_resolved _ _ _ _ _ _ _ _ _ Hres).
  rewrite (fetch_columns_single _ _ _ _ _ Hlabel).
  by erewrite bind_inl by by apply _fetch_values_raise.
Qed.

(** X9. When the one requested series is absent from every run, the
    no-such-series error comes only after each run was asked once, in order,
    and a warning was printed for each. *)
Theorem download_series_warns_before_no_such_series (self : NeptuneDownloader)
    (label : str_or_list) (col : string) (id state owner tag : selector)
    (ids : list string) (st : process) :
  normalize_label label = Str col ->
  resolves neptune self id state owner tag ids ->
  Forall (fun r => lacks_series neptune col r = true) ids ->
  download_series neptune self label id state owner tag st
  = (inl (ValueError ("No runs have a column named " +:+ col)),
     extend (resolved self id state owner tag ids st)
       ((fun r => FetchValues r col) <$> ids)
       (Fetching label :: ((fun r => Warning r col) <$> ids))).
Proof.
  intros Hlabel Hres Habs.
  rewrite (download_series_resolved _ _ _ _ _ _ _ _ _ Hres).
  rewrite (fetch_columns_single _ _ _ _ _ Hlabel).
  by erewrite bind_inl by by apply _fetch_values_all_absent.
Qed.

End SeriesPaths.

(** ** More on [download_series]: what a call leaves behind *)

Lemma mapM_extends {A B : Type} (f : A -> M B) (l : list A) :
  (forall a st, exists cs out, (f a st).2 = extend st cs out) ->
  forall st, exists cs out, (mapM f l st).2 = extend st cs out.
Proof.
  intros Hf. induction l as [|a l IH]; intros st; simpl.
  - exists [], []. by rewrite extend_nil.
  - unfold mbind, M_bind. destruct (Hf a st) as (cs & out & Ha).
    destruct (f a st) as [[e|b] st1]; simpl in Ha; subst st1.
    + by exists cs, out.
    + destruct (IH (extend st cs out)) as (cs' & out' & Hl).
      destruct (mapM f l (extend st cs out)) as [[e|bs] st2]; simpl in Hl; subst st2;
        exists (cs ++ cs'), (out ++ out'); by rewrite extend_extend.
Qed.

Section SeriesFrame.
Context {V : Type} (neptune : Neptune V).

Lemma join_all_state (ds : list (pd.DataFrame V)) :
  forall (df : pd.DataFrame V) (st : process), (join_all df ds st).2 = st.
Proof.
  induction ds as [|d ds IH]; intros df st; simpl; first done.
  unfold mbind, M_bind, lift. destruct (pd.join df d); simpl; auto.
Qed.

Lemma _fetch_values_grows (ids : list string) (runs : list Run) (label : str_or_list)
    (st : process) :
  exists cs out, (_fetch_values neptune ids runs label st).2 = extend st cs out.
Proof.
  assert (Hsingle : forall col, normalize_label label = Str col ->
            exists cs out, (_fetch_values neptune ids runs label st).2 = extend st cs out).
  { intros col Hlabel.
    destruct (_fetch_values_extends neptune ids runs col) as (res & cs & out & Hfetch).
    exists cs, (Fetching label :: out). by rewrite (Hfetch label st Hlabel). }
  destruct label as [s|[|c [|c' l]]]; [by apply (Hsingle s)| |by apply (Hsingle c)|];
    eexists [], [Fetching _]; unfold _fetch_values;
    erewrite bind_inr by apply print_extend; reflexivity.
Qed.

Lemma fetch_columns_grows (ids : list string) (runs : list Run) (series_column : str_or_list)
    (st : process) :
  exists cs out, (fetch_columns neptune ids runs series_column st).2 = extend st cs out.
Proof.
  assert (Hsingle : forall label,
            exists cs out,
              ((df ← _fetch_values neptune ids runs label; mret (Some df)) st).2
              = extend st cs out).
  { intros label. destruct (_fetch_values_grows ids runs label st) as (cs & out & Hf).
    exists cs, out. unfold mbind, M_bind.
    by destruct (_fetch_values neptune ids runs label st) as [[e|df] st1]. }
  destruct series_column as [s|l]; unfold fetch_columns; first done.
  destruct (length l =? 1)%nat; first done.
  destruct (mapM_extends (fun c => _fetch_values neptune ids runs (Str c)) l) with (st := st)
    as (cs & out & Hl).
  { intros c st0. apply _fetch_values_grows. }
  exists cs, out. unfold mbind, M_bind.
  destruct (mapM _ l st) as [[e|[|df ds]] st1]; simpl in Hl |- *; try done.
  pose proof (join_all_state ds df st1) as Hjoin.
  by destruct (join_all df ds st1) as [[e|df'] st2]; simpl in Hjoin |- *; subst st2.
Qed.

Lemma download_series_grows (self : NeptuneDownloader) (series_column : str_or_list)
    (id state owner tag : selector) (st : process) :
  exists cs out,
    (download_series neptune self series_column id state owner tag st).2 = extend st cs out.
Proof.
  rewrite download_series_unfold.
  destruct (all _); first by (exists [], []; rewrite extend_nil).
  unfold project_fetch_runs_table. erewrite bind_inr by apply log_call_extend.
  unfold lift.
  set (st1 := extend st [FetchRunsTable owner id state tag (Some (Str "sys/id"))] []).
  destruct (fetch_runs_table neptune owner id state tag _) as [e|table].
  { by eexists _, _. }
  destruct (assoc_get "sys/id" table) as [ids|]; last by eexists _, _.
  destruct (mapM_extends
              (fun run_id => neptune_init_run neptune (project_name self) run_id "read-only"
                               (api_token self)) ids) with (st := st1)
    as (cs & out & Hruns).
  { intros r st0. unfold neptune_init_run. erewrite bind_inr by apply log_call_extend.
    exists [InitRun (project_name self) r "read-only" (api_token self)], [].
    by destruct (init_run neptune (project_name self) r (api_token self)). }
  destruct (mapM _ ids st1) as [[e|runs] st2]; simpl in Hruns; subst st2.
  { eexists _, _. unfold st1. by rewrite extend_extend. }
  destruct (fetch_columns_grows ids runs series_column (extend st1 cs out))
    as (cs' & out' & Hcols).
  rewrite Hcols. eexists _, _. unfold st1. by rewrite !extend_extend.
Qed.

(** X10. Whatever the arguments and whatever the service answers,
    [download_series] leaves the environment as it was and only adds to what
    the process has sent and printed so far. *)
Theorem download_series_only_appends (self : NeptuneDownloader) (series_column : str_or_list)
    (id state owner tag : selector) (st : process) :
  environ (download_series neptune self series_column id state owner tag st).2 = environ st
  /\ calls st `prefix_of` calls (download_series neptune self series_column id state owner tag st).2
  /\ stdout st `prefix_of`
       stdout (download_series neptune self series_column id state owner tag st).2.
Proof.
  destruct (download_series_grows self series_column id state owner tag st)
    as (cs & out & ->).
  unfold extend. simpl. split; first done. split; by eexists.
Qed.

(** X11. When the selectors resolve to the runs [ids], the requested names
    are distinct and each requested series is found (present with values on
    some run, absent from the others), the remote calls of [download_series]
    are: the query of the run table, the opening of each run, and then one
    fetch per series and run, series by series in the order of the request
    and run by run within a series. *)
Theorem download_series_remote_calls (self : NeptuneDownloader) (series_column : str_or_list)
    (id state owner tag : selector) (ids : list string) (st : process) :
  resolves neptune self id state owner tag ids ->
  NoDup (requested series_column) ->
  Forall (fun c => found neptune c ids) (requested series_column) ->
  calls (download_series neptune self series_column id state owner tag st).2
  = calls st
    ++ FetchRunsTable owner id state tag (Some (Str "sys/id"))
       :: ((fun r => InitRun (project_name self) r "read-only" (api_token self)) <$> ids)
    ++ fetches (requested series_column) ids.
Proof.
  intros Hres _ Hall.
  rewrite (download_series_resolved _ _ _ _ _ _ _ _ _ Hres).
  assert (Hsingle : forall label col, normalize_label label = Str col ->
            requested label = [col] ->
            Forall (fun c => found neptune c ids) (requested label) ->
            calls (fetch_columns neptune ids (mkRun <$> ids) label
                     (resolved self id state owner tag ids st)).2
            = calls st
              ++ FetchRunsTable owner id state tag (Some (Str "sys/id"))
                 :: ((fun r => InitRun (project_name self) r "read-only" (api_token self))
                       <$> ids)
              ++ fetches (requested label) ids).
  { intros label col Hlabel Hreq Hcol. rewrite Hreq in Hcol |- *.
    apply Forall_cons in Hcol as [Hfound _].
    rewrite (fetch_columns_single _ _ _ _ _ Hlabel).
    destruct (_fetch_values_found neptune ids label col
                (resolved self id state owner tag ids st) Hlabel Hfound) as [df Hdf].
    erewrite bind_inr by exact Hdf.
    unfold fetches, resolved, extend. simpl. by rewrite app_nil_r, <- app_assoc. }
  destruct series_column as [s|l]; first by apply (Hsingle (Str s) s).
  destruct (Nat.eqb_spec (length l) 1) as [Hone|Hmany].
  { destruct l as [|c [|c' l]]; simplify_eq/=. by apply (Hsingle (Strs [c]) c). }
  unfold fetch_columns. apply Nat.eqb_neq in Hmany as Hlen. rewrite Hlen.
  destruct (mapM_fetch_values_found neptune (Strs l) ids l)
    with (st := resolved self id state owner tag ids st) as (dfs & Hfetch & _);
    [by intros c; apply shown_many|done|].
  erewrite bind_inr by done.
  assert (calls (extend (resolved self id state owner tag ids st) (fetches l ids)
                   (lines neptune (Strs l) l ids))
          = calls st
            ++ FetchRunsTable owner id state tag (Some (Str "sys/id"))
               :: ((fun r => InitRun (project_name self) r "read-only" (api_token self))
                     <$> ids)
            ++ fetches l ids) as Hcalls.
  { unfold resolved, extend. simpl. by rewrite <- app_assoc. }
  destruct dfs as [|df ds]; first done.
  unfold mbind, M_bind. pose proof (join_all_state ds df
    (extend (resolved self id state owner tag ids st) (fetches l ids)
       (lines neptune (Strs l) l ids))) as Hjoin.
  by destruct (join_all df ds _) as [[e|df'] st2]; simpl in Hjoin |- *; subst st2.
Qed.

End SeriesFrame.

(** ** The further properties at work on the example *)

Lemma init_opens_project_witness :
  __init__ (Lab.neptune (inl MissingFieldException)) "lab" None Lab.logged_in
  = (inr {| api_token := "secret"; project_name := "lab"; project := {| name := "lab" |} |},
     {| environ := <[NEPTUNE_API_TOKEN := "secret"]> (environ Lab.logged_in);
        calls := [InitProject "lab" "read-only" "secret"];
        stdout := [] |}).
Proof.
  apply (init_opens_project (Lab.neptune (inl MissingFieldException)) "lab" None "secret"
           Lab.logged_in).
  - right. split; reflexivity.
  - reflexivity.
Defined.

Lemma init_project_failure_propagates_witness :
  (__init__ Lab.offline "lab" (Some "token") Lab.start).1 = inl (RemoteError "ConnectionError")
  /\ calls (__init__ Lab.offline "lab" (Some "token") Lab.start).2
     = [InitProject "lab" "read-only" "token"].
Proof.
  apply (init_project_failure_propagates Lab.offline "lab" (Some "token") "token"
           (RemoteError "ConnectionError") Lab.start).
  - by left.
  - reflexivity.
Defined.

Lemma init_keeps_other_variables_witness :
  environ (__init__ (Lab.neptune (inl MissingFieldException)) "lab" (Some "other")
             Lab.logged_in).2 !! "HOME"
  = environ Lab.logged_in !! "HOME"
  /\ stdout (__init__ (Lab.neptune (inl MissingFieldException)) "lab" (Some "other")
               Lab.logged_in).2
     = stdout Lab.logged_in.
Proof.
  apply (init_keeps_other_variables (Lab.neptune (inl MissingFieldException)) "lab"
           (Some "other") "HOME" Lab.logged_in).
  discriminate.
Defined.

Lemma download_passes_through_witness :
  download (Lab.neptune (inl MissingFieldException)) Lab.self
    None None None (Some (Str "expA")) (Some ["sys/id"; "sys/owner"]) Lab.start
  = (inr [("sys/id", ["R1"; "R2"])],
     {| environ := ∅;
        calls := [FetchRunsTable None None None (Some (Str "expA"))
                    (Some (Strs ["sys/id"; "sys/owner"]))];
        stdout := [] |}).
Proof.
  apply (download_passes_through (Lab.neptune (inl MissingFieldException)) Lab.self
           None None None (Some (Str "expA")) (Some ["sys/id"; "sys/owner"]) Lab.start).
  do 3 right. by eexists.
Defined.

Lemma download_series_without_sys_id_witness :
  download_series Lab.headless Lab.self (Str "loss") None None None (Some (Str "expA"))
    Lab.start
  = (inl (KeyError "sys/id"),
     extend Lab.start
       [FetchRunsTable None None None (Some (Str "expA")) (Some (Str "sys/id"))] []).
Proof.
  apply (download_series_without_sys_id Lab.headless Lab.self (Str "loss")
           None None None (Some (Str "expA")) [("sys/name", ["first"; "second"])] Lab.start).
  - do 3 right. by eexists.
  - reflexivity.
  - reflexivity.
Defined.

Lemma download_series_no_names_witness :
  download_series (Lab.neptune (inl MissingFieldException)) Lab.self (Strs [])
    None None None (Some (Str "expA")) Lab.start
  = (inl (IndexError "list index out of range"),
     resolved Lab.self None None None (Some (Str "expA")) ["R1"; "R2"] Lab.start).
Proof.
  apply (download_series_no_names (Lab.neptune (inl MissingFieldException)) Lab.self
           None None None (Some (Str "expA")) ["R1"; "R2"] Lab.start).
  apply lab_resolves.
Defined.

Lemma download_series_stops_at_locked_run_witness :
  download_series Lab.locked Lab.self (Str "loss") None None None (Some (Str "expA"))
    Lab.start
  = (inl (RemoteError "Timeout"),
     extend Lab.start
       [FetchRunsTable None None None (Some (Str "expA")) (Some (Str "sys/id"));
        InitRun "lab" "R1" "read-only" "token";
        InitRun "lab" "R2" "read-only" "token"] []).
Proof.
  apply (download_series_stops_at_locked_run Lab.locked Lab.self (Str "loss")
           None None None (Some (Str "expA")) [("sys/id", ["R1"; "R2"])] ["R1"] [] "R2"
           (RemoteError "Timeout") Lab.start).
  - do 3 right. by eexists.
  - reflexivity.
  - reflexivity.
  - repeat constructor.
  - reflexivity.
Defined.

Lemma download_series_stops_at_failed_fetch_witness :
  download_series (Lab.neptune (inl (RemoteError "ReadTimeout"))) Lab.self (Strs ["loss"])
    None None None (Some (Str "expA")) Lab.start
  = (inl (RemoteError "ReadTimeout"),
     extend (resolved Lab.self None None None (Some (Str "expA")) ["R1"; "R2"] Lab.start)
       [FetchValues "R1" "loss"; FetchValues "R2" "loss"]
       [Fetching (Strs ["loss"])]).
Proof.
  apply (download_series_stops_at_failed_fetch (Lab.neptune (inl (RemoteError "ReadTimeout")))
           Lab.self (Strs ["loss"]) "loss" None None None (Some (Str "expA")) ["R1"] []
           "R2" (RemoteError "ReadTimeout") Lab.start).
  - reflexivity.
  - apply lab_resolves.
  - repeat constructor.
  - reflexivity.
  - reflexivity.
Defined.

Lemma download_series_warns_before_no_such_series_witness :
  download_series (Lab.neptune (inl MissingFieldException)) Lab.self (Str "f1")
    None None None (Some (Str "expA")) Lab.start
  = (inl (ValueError "No runs have a column named f1"),
     extend (resolved Lab.self None None None (Some (Str "expA")) ["R1"; "R2"] Lab.start)
       [FetchValues "R1" "f1"; FetchValues "R2" "f1"]
       [Fetching (Str "f1"); Warning "R1" "f1"; Warning "R2" "f1"]).
Proof.
  apply (download_series_warns_before_no_such_series (Lab.neptune (inl MissingFieldException))
           Lab.self (Str "f1") "f1" None None None (Some (Str "expA")) ["R1"; "R2"]
           Lab.start).
  - reflexivity.
  - apply lab_resolves.
  - repeat constructor.
Defined.

Lemma download_series_remote_calls_witness :
  calls (download_series (Lab.neptune (inl MissingFieldException)) Lab.self
           (Strs ["loss"; "acc"]) None None None (Some (Str "expA")) Lab.start).2
  = [FetchRunsTable None None None (Some (Str "expA")) (Some (Str "sys/id"));
     InitRun "lab" "R1" "read-only" "token"; InitRun "lab" "R2" "read-only" "token";
     FetchValues "R1" "loss"; FetchValues "R2" "loss";
     FetchValues "R1" "acc"; FetchValues "R2" "acc"].
Proof.
  apply (download_series_remote_calls (Lab.neptune (inl MissingFieldException)) Lab.self
           (Strs ["loss"; "acc"]) None None None (Some (Str "expA")) ["R1"; "R2"] Lab.start).
  - apply lab_resolves.
  - apply NoDup_cons. split; last apply NoDup_singleton.
    intros Hin. apply list_elem_of_singleton in Hin. discriminate.
  - constructor; first apply lab_found_loss.
    constructor; last constructor. apply lab_found_acc.
Defined.

Lemma download_series_partial_witness :
  exists df st',
    download_series (Lab.neptune (inl MissingFieldException)) Lab.self (Str "loss")
      None None None (Some (Str "expA")) Lab.start = (inr (Some df), st')
    /\ (pd.columns df).*1 = ["loss_R1"]
    /\ length (pd.columns df) = 1
    /\ pd.index df = 3
    /\ (forall r i, r ∈ ["R1"] -> i < pd.index df ->
          pd.cell df (column_label "loss" r) i
          = Some (series_values (Lab.neptune (inl MissingFieldException)) "loss" r !! i))
    /\ stdout st' = [Fetching (Str "loss"); Warning "R2" "loss"]
    /\ 1 = 2 - 1.
Proof.
  apply (download_series_partial (Lab.neptune (inl MissingFieldException)) Lab.self
           (Str "loss") "loss" None None None (Some (Str "expA")) ["R1"; "R2"] Lab.start).
  - reflexivity.
  - apply lab_resolves.
  - apply NoDup_cons. split; last apply NoDup_singleton.
    intros Hin. apply list_elem_of_singleton in Hin. discriminate.
  - apply lab_found_loss.
Defined.

Lemma download_series_hollow_witness :
  download_series (Lab.neptune (inl MissingFieldException)) Lab.self (Strs ["loss"])
    None None None (Some (Str "expC")) Lab.start
  = (inl (KeyError "value"),
     extend (resolved Lab.self None None None (Some (Str "expC")) ["R1"; "R2"; "R3"]
               Lab.start)
       [FetchValues "R1" "loss"; FetchValues "R2" "loss"; FetchValues "R3" "loss"]
       [Fetching (Strs ["loss"]); Warning "R2" "loss"]).
Proof.
  apply (download_series_hollow (Lab.neptune (inl MissingFieldException)) Lab.self
           (Strs ["loss"]) "loss" None None None (Some (Str "expC")) ["R1"; "R2"; "R3"] "R3"
           Lab.start).
  - reflexivity.
  - apply lab_resolves_three.
  - repeat (apply NoDup_cons; split;
            [intros Hin; repeat (apply elem_of_cons in Hin as [Hin|Hin]; [discriminate|]);
             by apply elem_of_nil in Hin|]).
    apply NoDup_nil_2.
  - repeat constructor.
  - do 2 (apply elem_of_cons; right). apply elem_of_cons. by left.
  - reflexivity.
Defined.
